(** * Semantic highlighter handlers: a shallow embedding

    The two TorchServe handlers
    [semantic_highlighting_handler.py] and [torchserve_handler.py]
    implement the same sentence-extraction pipeline: sentence segmentation
    with character offsets, windowed tokenization with sentence-id
    propagation, sentence-level mean pooling, a threshold-with-backoff
    selection rule, and resolution of the selected sentence indices to
    character spans.

    Python strings are lists of code points, Python integers are [Z],
    tensors are lists, probabilities and hidden vectors are rationals (the
    code only compares, adds and averages them), and the exceptions the
    code can raise are the constructors of [exn]. *)

From Stdlib Require Import QArith Ascii String.
From stdpp Require Import base list numbers sorting.

Close Scope Q_scope.
Local Open Scope Z_scope.

(** ** Exceptions *)

Inductive exn : Type :=
  | IndexError
  | RuntimeError.

Inductive result (A : Type) : Type :=
  | Ok (a : A)
  | Raise (e : exn).
Arguments Ok {A} a.
Arguments Raise {A} e.

#[global] Instance result_ret : MRet result := fun _ a => Ok a.

#[global] Instance result_bind : MBind result := fun _ _ k m =>
  match m with
  | Ok a => k a
  | Raise e => Raise e
  end.

Definition index {A} (l : list A) (i : nat) : result A :=
  match l !! i with
  | Some x => Ok x
  | None => Raise IndexError
  end.

(** ** Python strings *)

Definition char : Type := N.
Definition str : Type := list char.

Definition len {A} (l : list A) : Z := Z.of_nat (length l).

Definition py (s : string) : str := N_of_ascii <$> list_ascii_of_string s.
Arguments py s%_string.

(** [str.isspace] on one code point, as [str.split()] uses it. *)
Definition isspace (c : char) : bool :=
  ((9 <=? c) && (c <=? 13) || (28 <=? c) && (c <=? 32)
   || (c =? 133) || (c =? 160) || (c =? 5760)
   || (8192 <=? c) && (c <=? 8202)
   || (c =? 8232) || (c =? 8233) || (c =? 8239) || (c =? 8287)
   || (c =? 12288))%N.

(** [s.split()]: maximal runs of non-whitespace; [cur] is the run being
    read, in reverse. *)
Fixpoint split_from (cur : str) (s : str) : list str :=
  match s with
  | [] => match cur with [] => [] | _ => [reverse cur] end
  | c :: s' =>
      if isspace c then
        match cur with
        | [] => split_from [] s'
        | _ => reverse cur :: split_from [] s'
        end
      else split_from (c :: cur) s'
  end.

Definition split (s : str) : list str := split_from [] s.

Fixpoint startswith (s sub : str) : bool :=
  match sub, s with
  | [], _ => true
  | _ :: _, [] => false
  | c :: sub', d :: s' => (c =? d)%N && startswith s' sub'
  end.

(** Lowest position at which [sub] occurs in [s]; [s] is the text from
    absolute position [pos] on. *)
Fixpoint find_at (s sub : str) (pos : nat) : option nat :=
  if startswith s sub then Some pos
  else match s with
       | [] => None
       | _ :: s' => find_at s' sub (S pos)
       end.

(** A slice bound as Python normalises it. *)
Definition clamp (n i : Z) : Z :=
  if i <? 0 then Z.max 0 (n + i) else Z.min i n.

(** [s.find(sub, start)]. *)
Definition find (s sub : str) (start : Z) : Z :=
  let start' := if start <? 0 then Z.max 0 (len s + start) else start in
  if len s <? start' then -1
  else match find_at (drop (Z.to_nat start') s) sub (Z.to_nat start') with
       | Some i => Z.of_nat i
       | None => -1
       end.

(** [s[a:b]]. *)
Definition slice {A} (s : list A) (a b : Z) : list A :=
  let a' := clamp (len s) a in
  let b' := clamp (len s) b in
  take (Z.to_nat (b' - a')) (drop (Z.to_nat a') s).

(** [s[:b]]. *)
Definition slice_to {A} (s : list A) (b : Z) : list A := slice s 0 b.

(** ** Sentence positions

    The loop of [_process_single] headed "Calculate sentence positions"
    (the same in both handlers); [current_pos] is its cursor. *)

Fixpoint sentence_positions_from (context : str) (current_pos : Z)
    (doc_sents : list str) : list (Z * Z) :=
  match doc_sents with
  | [] => []
  | sent :: rest =>
      let start_pos := find context sent current_pos in
      let start_pos := if start_pos =? -1 then current_pos else start_pos in
      let end_pos := start_pos + len sent in
      (start_pos, end_pos) :: sentence_positions_from context end_pos rest
  end.

Definition sentence_positions (context : str) (doc_sents : list str) : list (Z * Z) :=
  sentence_positions_from context 0 doc_sents.

(** The cursor with which the loop looks for sentence [k]: the end of the
    span of sentence [k - 1], or 0. *)
Definition cursor_at (context : str) (doc_sents : list str) (k : nat) : Z :=
  match k with
  | O => 0
  | S k' => default 0 (snd <$> sentence_positions context doc_sents !! k')
  end.

(** The loop headed "Prepare data": words and their sentence ids. *)
Fixpoint prepare_words (sid : Z) (doc_sents : list str) : list str * list Z :=
  match doc_sents with
  | [] => ([], [])
  | sent :: rest =>
      let sent_words := split sent in
      let '(words, sentence_ids) := prepare_words (sid + 1) rest in
      (sent_words ++ words, replicate (length sent_words) sid ++ sentence_ids)
  end.


(** ** Tensors *)

Definition NONE : Z := -100.

Definition vec : Type := list Q.

(** [torch.zeros((rows, d_model))]: a negative dimension is refused. *)
Definition zeros (rows : Z) (d_model : nat) : result (list vec) :=
  if rows <? 0 then Raise RuntimeError
  else Ok (replicate (Z.to_nat rows) (replicate d_model 0%Q)).

(** [t.max()] and [t.min()]: refused on an empty tensor. *)
Definition tensor_max (t : list Z) : result Z :=
  match t with
  | [] => Raise RuntimeError
  | x :: t' => Ok (foldl Z.max x t')
  end.

Definition tensor_min (t : list Z) : result Z :=
  match t with
  | [] => Raise RuntimeError
  | x :: t' => Ok (foldl Z.min x t')
  end.

Definition Qmax (a b : Q) : Q := if Qle_bool a b then b else a.

Definition tensor_maxQ (t : list Q) : result Q :=
  match t with
  | [] => Raise RuntimeError
  | x :: t' => Ok (foldl Qmax x t')
  end.

(** [t.argmax()]: the first position holding the maximum. *)
Fixpoint argmax_from (best : Q) (besti i : nat) (t : list Q) : nat :=
  match t with
  | [] => besti
  | x :: t' =>
      if Qle_bool x best then argmax_from best besti (S i) t'
      else argmax_from x i (S i) t'
  end.

Definition argmax (t : list Q) : nat :=
  match t with
  | [] => O
  | x :: t' => argmax_from x O 1%nat t'
  end.

(** [hits.sum()] *)
Definition tensor_sum (hits : list bool) : Z :=
  foldr (λ (h : bool) s, Z.b2z h + s) 0 hits.

(** [torch.where(hits == 1)[0]] *)
Fixpoint where_from (i : Z) (hits : list bool) : list Z :=
  match hits with
  | [] => []
  | h :: rest => if h then i :: where_from (i + 1) rest else where_from (i + 1) rest
  end.

Definition where_true (hits : list bool) : list Z := where_from 0 hits.

(** [rows.mean(dim=-2, keepdim=True)] of a non-empty block of rows. *)
Definition mean_rows (d_model : nat) (rows : list vec) : vec :=
  (λ s, s / inject_Z (len rows))%Q <$> foldr (zip_with Qplus) (replicate d_model 0%Q) rows.

(** [t[mask]]: the entries of [t] at which [mask] holds. A mask that has
    not the length of [t] is refused. *)
Definition masked {A} (mask : list bool) (t : list A) : result (list A) :=
  if bool_decide (length mask = length t)
  then Ok (omap (λ '(b, x), if b : bool then Some x else None) (zip mask t))
  else Raise IndexError.

(** [torch.stack]: every block has the shape of the first. *)
Definition stack {A} (blocks : list (list A)) : result (list (list A)) :=
  match blocks with
  | [] => Raise RuntimeError
  | b :: _ =>
      if forallb (λ b', bool_decide (length b' = length b)) blocks then Ok blocks
      else Raise RuntimeError
  end.

(** ** [BertTaggerForSentenceExtractionWithBackoff.forward]

    The class is the same in both handlers. *)

(** One iteration of the loop of [_get_agg_output], for window [sen_ids]
    with token vectors [seq_i]: the sentence block, the offset and the
    number of sentences. *)
Definition agg_item (max_sentences : Z) (d_model : nat)
    (sen_ids : list Z) (seq_i : list vec) : result (list vec * Z * Z) :=
  let local_ids := sen_ids in
  let mask := (λ x, negb (x =? -100)) <$> local_ids in
  if negb (existsb id mask) then
    block ← zeros max_sentences d_model;
    Ok (block, 0, 0)
  else
    present ← masked mask local_ids;
    offset ← tensor_min present;
    let local_ids := zip_with (λ (m : bool) x, if m then x - offset else x) mask local_ids in
    present ← masked mask local_ids;
    m ← tensor_max present;
    let n_sent := m + 1 in
    out ← mapM (λ j, let mask_j := zip_with (λ x (m : bool), (x =? j) && m) local_ids mask in
                     if existsb id mask_j then
                       rows ← masked mask_j seq_i;
                       Ok (mean_rows d_model rows)
                     else Ok (replicate d_model 0%Q)) (seqZ 0 n_sent);
    padding ← (if 0 <? max_sentences - n_sent
               then zeros (max_sentences - n_sent) d_model else Ok []);
    Ok (out ++ padding, offset, n_sent).

Definition _get_agg_output (d_model : nat) (ids : list (list Z))
    (seq_out : list (list vec)) : result (list (list vec) * list Z * list Z) :=
  m ← tensor_max (concat ids);
  let max_sentences := m + 1 in
  items ← mapM (λ '(i, sen_ids),
                  seq_i ← index seq_out i;
                  agg_item max_sentences d_model sen_ids seq_i) (imap pair ids);
  agg_out ← stack (fst ∘ fst <$> items);
  Ok (agg_out, snd ∘ fst <$> items, snd <$> items).

(** One iteration of the loop of [_get_preds]. *)
Definition preds_item (threshold alpha : Q) (p : list Q) (off ns : Z) : result (list Z) :=
  if ns =? 0 then Ok []
  else
    let rel_probs := slice_to p ns in
    let hits := (λ x, Qle_bool threshold x) <$> rel_probs in
    hits ← (if tensor_sum hits =? 0 then
              mx ← tensor_maxQ rel_probs;
              if Qle_bool alpha mx then Ok (<[argmax rel_probs := true]> hits)
              else Ok hits
            else Ok hits);
    Ok ((λ i, i + off) <$> where_true hits).

Definition _get_preds (threshold alpha : Q) (pp : list (list Q)) (offs num_s : list Z)
    : result (list (list Z)) :=
  mapM (λ '(p, off, ns), preds_item threshold alpha p off ns) (zip (zip pp offs) num_s).

Definition threshold : Q := 1 # 2.
Definition alpha : Q := 1 # 20.

(** [nn.Module.training], set by the constructor and cleared by [eval()]. *)
Record nn_Module := { training : bool }.

Definition eval (m : nn_Module) : nn_Module := {| training := false |}.

(** [nn.Dropout(p)]: in training mode every entry is zeroed where the
    random [noise] says so and rescaled otherwise; in evaluation mode the
    input is returned as it is. *)
Definition dropout (p : Q) (m : nn_Module) (noise : nat → nat → nat → bool)
    (x : list (list vec)) : list (list vec) :=
  if training m then
    imap (λ i w, imap (λ t v, imap (λ k a, if noise i t k then 0 else a / (1 - p))%Q v) w) x
  else x.

(** ** Tokenization *)

(** What the tokenizer returns for a batch: one entry per window in every
    field; [word_ids] and [sequence_ids] hold the values of the methods of
    the same names. *)
Record BatchEncoding := {
  input_ids : list (list Z);
  token_type_ids : list (list Z);
  attention_mask : list (list Z);
  overflow_to_sample_mapping : list nat;
  word_ids : list (list (option nat));
  sequence_ids : list (list (option Z));
}.

(** The batch [prepare_input_features] receives. *)
Record Examples := {
  question : list (list str);
  context : list (list str);
  word_level_sentence_ids : list (list Z);
  id : list Z;
}.

(** The columns [prepare_input_features] returns. *)
Record Features := {
  f_input_ids : list (list Z);
  f_token_type_ids : list (list Z);
  f_attention_mask : list (list Z);
  f_example_id : list Z;
  f_word_ids : list (list (option nat));
  f_sentence_ids : list (list Z);
}.

(** The [while] loop: the first position whose sequence id is 1. *)
Fixpoint token_start (sequence_ids : list (option Z)) : nat :=
  match sequence_ids with
  | [] => O
  | s :: rest =>
      match s with
      | Some 1 => O
      | _ => S (token_start rest)
      end
  end.

(** The sentence ids of one window. *)
Definition window_sentence_ids (word_ids : list (option nat))
    (sequence_ids : list (option Z)) (word_level_sentence_ids : list Z) : list Z :=
  let token_start_index := token_start sequence_ids in
  replicate token_start_index (-100)
  ++ ((λ word_idx : option nat,
         match word_idx with
         | Some w =>
             if bool_decide (w < length word_level_sentence_ids)%nat
             then default (-100) (word_level_sentence_ids !! w)
             else -100
         | None => -100
         end) <$> drop token_start_index word_ids).

Definition MAX_LENGTH : Z := 510.
Definition STRIDE : Z := 128.

(** [pad_sequence(seqs, batch_first=True, padding_value=pad)] *)
Definition pad_sequence (pad : Z) (seqs : list (list Z)) : list (list Z) :=
  let width := max_list (length <$> seqs) in
  (λ s, s ++ replicate (width - length s)%nat pad) <$> seqs.

(** One row of the dataset built from [Features]. *)
Record Row := {
  r_input_ids : list Z;
  r_token_type_ids : list Z;
  r_attention_mask : list Z;
  r_sentence_ids : list Z;
}.

Definition dataset_row (f : Features) (i : nat) : result Row :=
  a ← index (f_input_ids f) i;
  b ← index (f_token_type_ids f) i;
  c ← index (f_attention_mask f) i;
  _ ← index (f_example_id f) i;
  _ ← index (f_word_ids f) i;
  d ← index (f_sentence_ids f) i;
  Ok {| r_input_ids := a; r_token_type_ids := b; r_attention_mask := c;
        r_sentence_ids := d |}.

(** The highlights of [semantic_highlighting_handler.py] and of
    [torchserve_handler.py]. *)
Record Highlight := { start : Z; end_ : Z }.

Record ScoredHighlight := {
  sh_text : str;
  sh_start : Z;
  sh_end : Z;
  sh_position : Z;
  sh_score : Q;
}.

(** The loop headed "Process results" of [semantic_highlighting_handler.py]. *)
Fixpoint highlights_of (doc_sents : list str) (sentence_positions : list (Z * Z))
    (preds : list Z) : result (list Highlight) :=
  match preds with
  | [] => Ok []
  | pred_idx :: rest =>
      if (0 <=? pred_idx) && (pred_idx <? len doc_sents) then
        '(start_pos, end_pos) ← index sentence_positions (Z.to_nat pred_idx);
        highlights ← highlights_of doc_sents sentence_positions rest;
        Ok ({| start := start_pos; end_ := end_pos |} :: highlights)
      else highlights_of doc_sents sentence_positions rest
  end.

(** The same loop in [torchserve_handler.py]. *)
Fixpoint scored_highlights_of (doc_sents : list str) (sentence_positions : list (Z * Z))
    (preds : list Z) : result (list ScoredHighlight) :=
  match preds with
  | [] => Ok []
  | pred_idx :: rest =>
      if (0 <=? pred_idx) && (pred_idx <? len doc_sents) then
        '(start_pos, end_pos) ← index sentence_positions (Z.to_nat pred_idx);
        text ← index doc_sents (Z.to_nat pred_idx);
        highlights ← scored_highlights_of doc_sents sentence_positions rest;
        Ok ({| sh_text := text; sh_start := start_pos; sh_end := end_pos;
               sh_position := pred_idx; sh_score := 1 |} :: highlights)
      else scored_highlights_of doc_sents sentence_positions rest
  end.

Section Pipeline.

(** The collaborators: NLTK's [sent_tokenize], the tokenizer (called with
    [truncation="only_second"], [return_overflowing_tokens=True],
    [is_split_into_words=True] and no padding) on questions, contexts,
    [max_length] and [stride], the encoder on a batch of input ids,
    attention masks and token type ids, and the classifier followed by
    the softmax, read at class 1. *)
Variable sent_tokenize : str → list str.
Variable tokenizer : list (list str) → list (list str) → Z → Z → BatchEncoding.
Variable bert : list (list Z) → list (list Z) → list (list Z) → list (list vec).
Variable classifier : vec → Q.
Variable hidden_size : nat.
Variable hidden_dropout_prob : Q.

Definition forward (self : nn_Module) (noise : nat → nat → nat → bool)
    (input_ids attention_mask token_type_ids sentence_ids : list (list Z))
    : result (list (list Z)) :=
  let outputs := bert input_ids attention_mask token_type_ids in
  let sequence_output := dropout hidden_dropout_prob self noise outputs in
  '(agg_output, offsets, num_sents_item) ←
    _get_agg_output hidden_size sentence_ids sequence_output;
  let probs := (λ block : list vec, classifier <$> block) <$> agg_output in
  _get_preds threshold alpha probs offsets num_sents_item.

Definition prepare_input_features (examples : Examples) (max_seq_length stride : Z)
    : result Features :=
  let tokenized_examples :=
    tokenizer (question examples) (context examples) max_seq_length stride in
  let sample_mapping := overflow_to_sample_mapping tokenized_examples in
  rows ← mapM (λ '(i, sample_index),
                 word_ids ← index (word_ids tokenized_examples) i;
                 word_level_sentence_ids ←
                   index (word_level_sentence_ids examples) sample_index;
                 sequence_ids ← index (sequence_ids tokenized_examples) i;
                 let sentences_ids :=
                   window_sentence_ids word_ids sequence_ids word_level_sentence_ids in
                 example_id ← index (id examples) sample_index;
                 Ok (sentences_ids, example_id, word_ids))
              (imap pair sample_mapping);
  let clip := λ field : list (list Z), (λ seq, slice_to seq max_seq_length) <$> field in
  Ok {| f_input_ids := clip (input_ids tokenized_examples);
        f_token_type_ids := clip (token_type_ids tokenized_examples);
        f_attention_mask := clip (attention_mask tokenized_examples);
        f_example_id := snd ∘ fst <$> rows;
        f_word_ids := snd <$> rows;
        f_sentence_ids := clip (fst ∘ fst <$> rows) |}.

(** Everything of [_process_single] between the segmentation and the
    loop over the predictions, which both handlers share word for word:
    the predictions of the model on the first row of the dataset. *)
Definition predictions (model : nn_Module) (noise : nat → nat → nat → bool)
    (question : str) (doc_sents : list str) : result (list (list Z)) :=
  let '(words, sentence_ids) := prepare_words 0 doc_sents in
  let example_dataset :=
    {| question := [[question]]; context := [words];
       word_level_sentence_ids := [sentence_ids]; id := [0] |} in
  example_dataset ← prepare_input_features example_dataset MAX_LENGTH STRIDE;
  example ← dataset_row example_dataset 0;
  let features := [example] in
  forward model noise
    (pad_sequence 0 (r_input_ids <$> features))
    (pad_sequence 0 (r_attention_mask <$> features))
    (pad_sequence 0 (r_token_type_ids <$> features))
    (pad_sequence (-100) (r_sentence_ids <$> features)).

(** For the comparison with the specification, which selects in every
    window: the predictions of the model on window [i] of the dataset taken
    alone, that is [predictions] with row [i] in the place of row 0. *)
Definition spec_window_predictions (model : nn_Module) (noise : nat → nat → nat → bool)
    (question : str) (doc_sents : list str) (i : nat) : result (list Z) :=
  let '(words, sentence_ids) := prepare_words 0 doc_sents in
  let example_dataset :=
    {| question := [[question]]; context := [words];
       word_level_sentence_ids := [sentence_ids]; id := [0] |} in
  example_dataset ← prepare_input_features example_dataset MAX_LENGTH STRIDE;
  example ← dataset_row example_dataset i;
  let features := [example] in
  sentence_preds ← forward model noise
    (pad_sequence 0 (r_input_ids <$> features))
    (pad_sequence 0 (r_attention_mask <$> features))
    (pad_sequence 0 (r_token_type_ids <$> features))
    (pad_sequence (-100) (r_sentence_ids <$> features));
  Ok (default [] (head sentence_preds)).

(** The number of windows the feature builder made of the passage. *)
Definition spec_window_count (question : str) (doc_sents : list str) : result nat :=
  let '(words, sentence_ids) := prepare_words 0 doc_sents in
  let example_dataset :=
    {| question := [[question]]; context := [words];
       word_level_sentence_ids := [sentence_ids]; id := [0] |} in
  example_dataset ← prepare_input_features example_dataset MAX_LENGTH STRIDE;
  Ok (length (f_sentence_ids example_dataset)).

(** The union the specification describes: the indices selected in any
    window of the passage, each once, in ascending order. *)
Definition spec_union_of_windows (model : nn_Module) (noise : nat → nat → nat → bool)
    (question : str) (doc_sents : list str) : result (list Z) :=
  n ← spec_window_count question doc_sents;
  per_window ← mapM (spec_window_predictions model noise question doc_sents) (seq 0 n);
  Ok (merge_sort Z.le (remove_dups (concat per_window))).

(** [_process_single] of [semantic_highlighting_handler.py]. *)
Definition _process_single (model : nn_Module) (noise : nat → nat → nat → bool)
    (question context : str) : result (list Highlight) :=
  let doc_sents := sent_tokenize context in
  match doc_sents with
  | [] => Ok []
  | _ =>
      let sentence_positions := sentence_positions context doc_sents in
      sentence_preds ← predictions model noise question doc_sents;
      match sentence_preds with
      | preds0 :: _ =>
          if 0 <? len preds0
          then highlights_of doc_sents sentence_positions preds0
          else Ok []
      | [] => Ok []
      end
  end.

(** [SemanticHighlighterHandler._process_single] of [torchserve_handler.py]. *)
Definition SemanticHighlighterHandler_process_single (model : nn_Module)
    (noise : nat → nat → nat → bool) (question context : str)
    : result (list ScoredHighlight) :=
  let doc_sents := sent_tokenize context in
  match doc_sents with
  | [] => Ok []
  | _ =>
      let sentence_positions := sentence_positions context doc_sents in
      sentence_preds ← predictions model noise question doc_sents;
      match sentence_preds with
      | preds0 :: _ =>
          if 0 <? len preds0
          then scored_highlights_of doc_sents sentence_positions preds0
          else Ok []
      | [] => Ok []
      end
  end.

(** The model as [handle] and [initialize] leave it: constructed (in
    training mode), loaded, and switched to evaluation mode. *)
Definition loaded_model : nn_Module := eval {| training := true |}.

End Pipeline.

(** ** Stand-ins for the collaborators

    Small executable collaborators on which the pipeline can be run: a
    segmenter that cuts after every full stop, a tokenizer that makes one
    token of every word (its first character, control and format
    characters removed; none when nothing is left) and windows the passage
    with the requested length and stride, an encoder that returns the
    token id as a one-dimensional vector, and a classifier that finds a
    sentence relevant when all its words start with an asterisk. *)
Module Toy.

Fixpoint cut_sentences (cur : str) (s : str) : list str :=
  match s with
  | [] => match cur with [] => [] | _ => [reverse cur] end
  | c :: s' =>
      if (c =? 46)%N then reverse (c :: cur) :: cut_sentences [] s'
      else match cur with
           | [] => if isspace c then cut_sentences [] s' else cut_sentences [c] s'
           | _ => cut_sentences (c :: cur) s'
           end
  end.

Definition sent_tokenize (text : str) : list str := cut_sentences [] text.

(** A segmenter that writes every double quote as two single quotes, as
    Penn Treebank tokenizers do, before cutting. *)
Definition quoting_sent_tokenize (text : str) : list str :=
  cut_sentences [] (text ≫= λ c, if (c =? 34)%N then [39; 39]%N else [c]).

(** The characters the tokenizer's text cleaning removes: NUL, the
    replacement character, control and format characters. *)
Definition removed (c : char) : bool :=
  ((c =? 0) || (c =? 65533) || (c <? 32) || (127 <=? c) && (c <=? 159)
   || (8203 <=? c) && (c <=? 8207))%N.

(** The token of a word: its first character that is kept, if any. *)
Fixpoint token_id (word : str) : option Z :=
  match word with
  | [] => None
  | c :: word' => if removed c then token_id word' else Some (Z.of_N c)
  end.

(** The tokens of a sequence of words, each with the index of its word. *)
Definition tokens (words : list str) : list (nat * Z) :=
  omap (λ '(i, w), (λ t, (i, t)) <$> token_id w) (imap pair words).

(** The passage windows: [cap] tokens each, the next one starting
    [step] tokens later, until the passage is covered. *)
Fixpoint windows (fuel : nat) (cap step pos : nat) (toks : list (nat * Z))
    : list (list (nat * Z)) :=
  match fuel with
  | O => []
  | S fuel' =>
      let w := take cap (drop pos toks) in
      if bool_decide (length toks ≤ pos + cap)%nat then [w]
      else w :: windows fuel' cap step (pos + step) toks
  end.

(** One window: ids, type ids, word ids, sequence ids, sample. *)
Record Encoding := {
  e_input_ids : list Z;
  e_token_type_ids : list Z;
  e_word_ids : list (option nat);
  e_sequence_ids : list (option Z);
  e_sample : nat;
}.

Definition encode_sample (max_length stride : Z) (sample : nat)
    (question passage : list str) : list Encoding :=
  let q := tokens question in
  let nq := length q in
  let cap := (Z.to_nat max_length - nq - 3)%nat in
  let step := (cap - Z.to_nat stride)%nat in
  (λ w : list (nat * Z),
     {| e_input_ids := [101] ++ q.*2 ++ [102] ++ w.*2 ++ [102];
        e_token_type_ids :=
          [0] ++ replicate nq 0 ++ [0] ++ replicate (length w) 1 ++ [1];
        e_word_ids :=
          [None] ++ (Some <$> q.*1) ++ [None] ++ (Some <$> w.*1) ++ [None];
        e_sequence_ids :=
          [None] ++ replicate nq (Some 0) ++ [None]
          ++ replicate (length w) (Some 1) ++ [None];
        e_sample := sample |})
  <$> windows (S (length passage)) cap (Nat.max 1 step) 0 (tokens passage).

Definition tokenizer (questions contexts : list (list str)) (max_length stride : Z)
    : BatchEncoding :=
  let encs :=
    concat (imap (λ i '(q, c), encode_sample max_length stride i q c)
                 (zip questions contexts)) in
  {| input_ids := e_input_ids <$> encs;
     token_type_ids := e_token_type_ids <$> encs;
     attention_mask := (λ e, (λ _, 1) <$> e_input_ids e) <$> encs;
     overflow_to_sample_mapping := e_sample <$> encs;
     word_ids := e_word_ids <$> encs;
     sequence_ids := e_sequence_ids <$> encs |}.

Definition bert (input_ids attention_mask token_type_ids : list (list Z))
    : list (list vec) :=
  (λ w : list Z, (λ t : Z, [inject_Z t]) <$> w) <$> input_ids.

Definition classifier (v : vec) : Q :=
  match v with
  | x :: _ =>
      if Qeq_bool x 42 then 9 # 10
      else if Qeq_bool x 43 then 8 # 100
      else 1 # 100
  | [] => 0
  end.

Definition hidden_size : nat := 1.
Definition hidden_dropout_prob : Q := 1 # 10.

Definition noise (i t k : nat) : bool := Nat.even t.

Definition highlight (question context : str) : result (list Highlight) :=
  _process_single sent_tokenize tokenizer bert classifier hidden_size
    hidden_dropout_prob loaded_model noise question context.

(** A passage of 62 sentences and 603 words: it needs two windows, and
    its last sentence lies in the second only. *)
Definition long_context : str :=
  py "*x. " ++ concat (replicate 60 (py "a a a a a a a a a a. ")) ++ py "*b *c.".

(** A passage with double quotes: [*Say *"no".] *)
Definition quoted_context : str :=
  py "*Say *" ++ [34%N] ++ py "no" ++ [34%N] ++ py ".".

Definition dog_context : str :=
  py "A cat sat. *A *dog *ran *fast.  A bird flew high.".

(** A passage of one character, a zero-width space (U+200B): one
    sentence of one word, which the tokenizer turns into no token. *)
Definition blank_context : str := [8203%N].

End Toy.

(** ** Notions used in the statements *)

(** The spans of a loop started with cursor [cur]: every span starts at or
    after the cursor it was computed with and the next cursor is its end. *)
Fixpoint chained (cur : Z) (spans : list (Z * Z)) : Prop :=
  match spans with
  | [] => True
  | (s, e) :: rest => cur ≤ s ∧ s ≤ e ∧ chained e rest
  end.

(** The indices the result loop accepts, and what it makes of one. *)
Definition in_range (doc_sents : list str) (i : Z) : Prop :=
  0 ≤ i < len doc_sents.

#[global] Instance in_range_dec doc_sents i : Decision (in_range doc_sents i).
Proof. unfold in_range. apply _. Defined.

Definition span_of (spans : list (Z * Z)) (i : Z) : Z * Z :=
  default (0, 0) (spans !! Z.to_nat i).

Definition highlight_of (spans : list (Z * Z)) (i : Z) : Highlight :=
  {| start := (span_of spans i).1; end_ := (span_of spans i).2 |}.

Definition scored_highlight_of (doc_sents : list str) (spans : list (Z * Z)) (i : Z)
    : ScoredHighlight :=
  {| sh_text := default [] (doc_sents !! Z.to_nat i : option str);
     sh_start := (span_of spans i).1; sh_end := (span_of spans i).2;
     sh_position := i; sh_score := 1 |}.

(** [doc_sents] are the slices of [context] at [true_spans], which follow
    one another within the passage from [cur] on: what a segmenter
    returns that cuts the passage without rewriting it. *)
Fixpoint cut_at (context : str) (cur : Z) (doc_sents : list str)
    (true_spans : list (Z * Z)) : Prop :=
  match doc_sents, true_spans with
  | [], [] => True
  | sent :: doc_sents', (a, b) :: true_spans' =>
      cur ≤ a ∧ b = a + len sent ∧ b ≤ len context ∧ slice context a b = sent
      ∧ cut_at context b doc_sents' true_spans'
  | _, _ => False
  end.

(** What [inference] of [torchserve_handler.py] keeps of a highlight:
    [{"start": h["start"], "end": h["end"]}]. *)
Definition start_end (h : ScoredHighlight) : Highlight :=
  {| start := sh_start h; end_ := sh_end h |}.

(** The sentence ids of a window, sentinel left out. *)
Definition present_ids (sen_ids : list Z) : list Z :=
  filter (λ x, x ≠ -100) sen_ids.

(** A batch the feature builder can produce: every sentence id is the
    sentinel or a sentence index, and some window has a sentence index. *)
Definition well_formed_ids (ids : list (list Z)) : Prop :=
  Forall (Forall (λ x, x = -100 ∨ 0 ≤ x)) ids
  ∧ ∃ w x, w ∈ ids ∧ x ∈ w ∧ x ≠ -100.

(** The shapes of the tensors of the forward pass: [ids] has B rows of L
    sentence ids each, and [seq_out] has L token vectors for each of the B
    rows. *)
Definition rectangular {A} (t : list (list A)) : Prop :=
  ∃ L : nat, Forall (λ row, length row = L) t.

Definition token_aligned (ids : list (list Z)) (seq_out : list (list vec)) : Prop :=
  Forall2 (λ (sen_ids : list Z) (seq_i : list vec), length seq_i = length sen_ids)
    ids seq_out.

(** ** Requests

    The request layer of the two handlers. A decoded JSON document is a
    [json] (numbers are integers here, objects are association lists read
    at their first match), and the exceptions of this layer extend those of
    the pipeline. *)

Inductive pyexn : Type :=
  | Inner (e : exn)
  | KeyError
  | TypeError
  | ValueError
  | JSONDecodeError.

Inductive outcome (A : Type) : Type :=
  | Done (a : A)
  | Throw (e : pyexn).
Arguments Done {A} a.
Arguments Throw {A} e.

#[global] Instance outcome_ret : MRet outcome := fun _ a => Done a.

#[global] Instance outcome_bind : MBind outcome := fun _ _ k m =>
  match m with
  | Done a => k a
  | Throw e => Throw e
  end.

Definition lift {A} (r : result A) : outcome A :=
  match r with
  | Ok a => Done a
  | Raise e => Throw (Inner e)
  end.

#[warnings="-register-all"]
Inductive json : Type :=
  | JNull
  | JBool (b : bool)
  | JNum (n : Z)
  | JStr (s : str)
  | JList (l : list json)
  | JDict (d : list (str * json)).

(** [d.get(key)] on a dict. *)
Fixpoint dict_get {V} (d : list (str * V)) (key : str) : option V :=
  match d with
  | [] => None
  | (k, v) :: d' => if decide (k = key) then Some v else dict_get d' key
  end.

(** Truth value of a Python object. *)
Definition truthy (v : json) : bool :=
  match v with
  | JNull => false
  | JBool b => b
  | JNum n => negb (n =? 0)
  | JStr s => negb (bool_decide (s = []))
  | JList l => negb (bool_decide (length l = 0%nat))
  | JDict d => negb (bool_decide (length d = 0%nat))
  end.

(** [key in v] for a string [key]: a key of a dict, an element of a list,
    a substring of a string; other objects are not iterable. *)
Definition contains (key : str) (v : json) : outcome bool :=
  match v with
  | JDict d => Done (bool_decide (is_Some (dict_get d key)))
  | JList l =>
      Done (existsb (λ x, match x with JStr s => bool_decide (s = key) | _ => false end) l)
  | JStr s => Done (negb (find s key 0 =? -1))
  | _ => Throw TypeError
  end.

(** [v[key]] for a string [key]. *)
Definition getitem (v : json) (key : str) : outcome json :=
  match v with
  | JDict d =>
      match dict_get d key with
      | Some x => Done x
      | None => Throw KeyError
      end
  | _ => Throw TypeError
  end.

(** The elements a [for] loop, [len] or [zip] sees in [v]. *)
Definition iterate (v : json) : outcome (list json) :=
  match v with
  | JList l => Done l
  | JStr s => Done ((λ c, JStr [c]) <$> s)
  | JDict d => Done ((λ kv, JStr kv.1) <$> d)
  | _ => Throw TypeError
  end.

(** A response of a handler: [{"highlights": [...]}] for one document,
    [{"highlights": [[...], ...]}] for several, [{"error": ...}]. *)
Inductive response : Type :=
  | Highlights (hs : list Highlight)
  | BatchHighlights (hss : list (list Highlight))
  | ErrorResponse (msg : string).

(** One feature for the collator: a dict whose values may be [None]. *)
Definition feature : Type := list (str * option (list Z)).

(** [DataCollatorWithPadding.__call__]: for every key of [pad_kvs] that
    the first feature has with a value, the sequences of all features
    under that key, padded to a common length. *)
Definition DataCollatorWithPadding_call (pad_kvs : list (str * Z))
    (features : list feature) : outcome (list (str * list (list Z))) :=
  first ← lift (index features 0);
  fields ← mapM (λ '(key, pad_value),
      match dict_get first key with
      | Some (Some _) =>
          seqs ← mapM (λ f : feature,
                    match dict_get f key with
                    | Some (Some seq) => Done seq
                    | Some None => Throw (Inner RuntimeError)
                    | None => Throw KeyError
                    end) features;
          Done [(key, pad_sequence pad_value seqs)]
      | _ => Done []
      end) pad_kvs;
  Done (concat fields).

Section Serving.

Variable sent_tokenize : str → list str.
Variable tokenizer : list (list str) → list (list str) → Z → Z → BatchEncoding.
Variable bert : list (list Z) → list (list Z) → list (list Z) → list (list vec).
Variable classifier : vec → Q.
Variable hidden_size : nat.
Variable hidden_dropout_prob : Q.

(** [json.loads], and what the libraries under [_process_single] do with
    a question or a context that is no string. *)
Variable json_loads : str → outcome json.
Variable ill_typed : json → json → outcome (list Highlight).
Variable ill_typed_scored : json → json → outcome (list ScoredHighlight).

(** [_process_single(question, context)] of
    [semantic_highlighting_handler.py] on decoded values. *)
Definition process_values (model : nn_Module) (noise : nat → nat → nat → bool)
    (question context : json) : outcome (list Highlight) :=
  match question, context with
  | JStr q, JStr c =>
      lift (_process_single sent_tokenize tokenizer bert classifier hidden_size
              hidden_dropout_prob model noise q c)
  | _, _ => ill_typed question context
  end.

(** [self._process_single(question, context)] of [torchserve_handler.py]
    on decoded values. *)
Definition process_values_scored (model : nn_Module) (noise : nat → nat → nat → bool)
    (question context : json) : outcome (list ScoredHighlight) :=
  match question, context with
  | JStr q, JStr c =>
      lift (SemanticHighlighterHandler_process_single sent_tokenize tokenizer bert
              classifier hidden_size hidden_dropout_prob model noise q c)
  | _, _ => ill_typed_scored question context
  end.

(** [row.get("data") or row.get("body")], decoded when it is a string:
    the first lines of the loop of [handle] and the loop of [preprocess]. *)
Definition input_data_of (row : list (str * json)) : outcome json :=
  let data := default JNull (dict_get row (py "data")) in
  let input_data :=
    if truthy data then data else default JNull (dict_get row (py "body")) in
  match input_data with
  | JStr s => json_loads s
  | _ => Done input_data
  end.

(** The loop [for item in items] of [handle], for both batch formats. *)
Definition process_items (model : nn_Module) (noise : nat → nat → nat → bool)
    (items : list json) : outcome (list (list Highlight)) :=
  mapM (λ item,
          question ← getitem item (py "question");
          context ← getitem item (py "context");
          process_values model noise question context) items.

(** The body of the loop [for row in data] of [handle]. *)
Definition handle_row (model : nn_Module) (noise : nat → nat → nat → bool)
    (row : list (str * json)) : outcome response :=
  input_data ← input_data_of row;
  match input_data with
  | JList items =>
      batch_results ← process_items model noise items;
      Done (BatchHighlights batch_results)
  | _ =>
      has_inputs ← contains (py "inputs") input_data;
      if has_inputs : bool then
        inputs ← getitem input_data (py "inputs");
        match inputs with
        | JList items =>
            batch_results ← process_items model noise items;
            Done (BatchHighlights batch_results)
        | _ => Done (ErrorResponse "Unexpected inputs format")
        end
      else
        has_question ← contains (py "question") input_data;
        has_context ← (if has_question : bool
                       then contains (py "context") input_data else Done false);
        if has_question && has_context then
          question ← getitem input_data (py "question");
          context ← getitem input_data (py "context");
          result ← process_values model noise question context;
          Done (Highlights result)
        else Done (ErrorResponse "Invalid input format")
  end.

(** [handle(data, context)] of [semantic_highlighting_handler.py]: the
    global model before the call, the data; the global model after the
    call and what is returned or raised. Loading the tokenizer and the
    weights is taken to succeed. *)
Definition handle (model : option nn_Module) (noise : nat → nat → nat → bool)
    (data : option (list (list (str * json))))
    : option nn_Module * outcome (list response) :=
  let data := default [] data in
  let model := match model with None => loaded_model | Some m => m end in
  (Some model, mapM (handle_row model noise) data).

(** [SemanticHighlighterHandler.preprocess] *)
Definition preprocess (data : list (list (str * json))) : outcome (list json) :=
  mapM input_data_of data.

(** [SemanticHighlighterHandler._process_batch] *)
Definition _process_batch (model : nn_Module) (noise : nat → nat → nat → bool)
    (questions contexts : list json) : outcome (list (list ScoredHighlight)) :=
  mapM (λ '(question, context), process_values_scored model noise question context)
       (zip questions contexts).

(** The two list comprehensions over [input_data[key]] followed by
    [_process_batch], as the "inputs" and "batch" branches have them. *)
Definition inference_pairs (model : nn_Module) (noise : nat → nat → nat → bool)
    (input_data : json) (key : str) : outcome response :=
  pairs ← getitem input_data key;
  items ← iterate pairs;
  questions ← mapM (λ item, getitem item (py "question")) items;
  pairs ← getitem input_data key;
  items ← iterate pairs;
  contexts ← mapM (λ item, getitem item (py "context")) items;
  batch_results ← _process_batch model noise questions contexts;
  Done (BatchHighlights ((λ r : list ScoredHighlight, start_end <$> r) <$> batch_results)).

(** The body of the loop [for input_data in inputs] of [inference]. *)
Definition inference_one (model : nn_Module) (noise : nat → nat → nat → bool)
    (input_data : json) : outcome response :=
  has_question ← contains (py "question") input_data;
  has_contexts ← (if has_question : bool
                  then contains (py "contexts") input_data else Done false);
  if has_question && has_contexts then
    question ← getitem input_data (py "question");
    contexts ← getitem input_data (py "contexts");
    items ← iterate contexts;
    batch_results ←
      _process_batch model noise (replicate (length items) question) items;
    Done (BatchHighlights ((λ r : list ScoredHighlight, start_end <$> r) <$> batch_results))
  else
    has_inputs ← contains (py "inputs") input_data;
    if has_inputs : bool then inference_pairs model noise input_data (py "inputs")
    else
      has_batch ← contains (py "batch") input_data;
      if has_batch : bool then inference_pairs model noise input_data (py "batch")
      else
        has_question ← contains (py "question") input_data;
        has_context ← (if has_question : bool
                       then contains (py "context") input_data else Done false);
        if has_question && has_context then
          question ← getitem input_data (py "question");
          context ← getitem input_data (py "context");
          result ← process_values_scored model noise question context;
          Done (Highlights (start_end <$> result))
        else Throw ValueError.

(** [SemanticHighlighterHandler.inference] and [postprocess]. *)
Definition inference (model : nn_Module) (noise : nat → nat → nat → bool)
    (inputs : list json) : outcome (list response) :=
  mapM (inference_one model noise) inputs.

Definition postprocess (data : list response) : list response := data.

End Serving.

(** Stand-ins for the request layer: a decoder that refuses every string
    and libraries that answer an ill-typed argument with a TypeError. *)
Module ToyServing.

Definition json_loads (s : str) : outcome json := Throw JSONDecodeError.
Definition ill_typed (q c : json) : outcome (list Highlight) := Throw TypeError.
Definition ill_typed_scored (q c : json) : outcome (list ScoredHighlight) :=
  Throw TypeError.

Definition handle :=
  handle Toy.sent_tokenize Toy.tokenizer Toy.bert Toy.classifier Toy.hidden_size
    Toy.hidden_dropout_prob json_loads ill_typed.

Definition inference :=
  inference Toy.sent_tokenize Toy.tokenizer Toy.bert Toy.classifier Toy.hidden_size
    Toy.hidden_dropout_prob ill_typed_scored.

Definition dog_request : json :=
  JDict [(py "question", JStr (py "What did the dog do?"));
         (py "context", JStr Toy.dog_context)].

End ToyServing.

(** A document whose question and context are strings. *)
Definition string_document (item : json) : Prop :=
  ∃ d q c, item = JDict d ∧ dict_get d (py "question") = Some (JStr q)
           ∧ dict_get d (py "context") = Some (JStr c).

(** What the handlers rely on in the tokenizer's answer for their single
    example: at least one window, every window of sample 0, and one entry
    per window in every field. *)
Definition tokenizer_contract (enc : BatchEncoding) : Prop :=
  let n := length (overflow_to_sample_mapping enc) in
  (0 < n)%nat
  ∧ Forall (λ sample, sample = 0%nat) (overflow_to_sample_mapping enc)
  ∧ length (word_ids enc) = n ∧ length (sequence_ids enc) = n
  ∧ length (input_ids enc) = n ∧ length (token_type_ids enc) = n
  ∧ length (attention_mask enc) = n.

(** Two tensors of the same shape. *)
Definition same_shape (a b : list (list Z)) : Prop :=
  Forall2 (λ x y : list Z, length y = length x) a b.

(** Every window of the tokenizer's answer has a word id, a sequence id,
    a token type id and an attention mask entry for each of its tokens. *)
Definition encoding_aligned (enc : BatchEncoding) : Prop :=
  Forall2 (λ (ids : list Z) (wids : list (option nat)), length wids = length ids)
    (input_ids enc) (word_ids enc)
  ∧ Forall2 (λ (ids : list Z) (seqs : list (option Z)), length seqs = length ids)
      (input_ids enc) (sequence_ids enc)
  ∧ same_shape (input_ids enc) (token_type_ids enc)
  ∧ same_shape (input_ids enc) (attention_mask enc).

(** * Properties *)

(** ** Strings and spans *)

Lemma startswith_take (s sub : str) :
  startswith s sub = true →
  take (length sub) s = sub ∧ (length sub ≤ length s)%nat.
Proof.
  revert s. induction sub as [|c sub IH]; intros s H.
  - split; [by rewrite take_0 | simpl; lia].
  - destruct s as [|d s]; simpl in H; [done|].
    apply andb_prop in H as [Hc Hs]. apply N.eqb_eq in Hc as ->.
    destruct (IH _ Hs) as [Ht Hl]. simpl. rewrite Ht. split; [done | lia].
Qed.

Lemma find_at_occurs (s sub : str) (pos i : nat) :
  find_at s sub pos = Some i →
  ∃ k : nat, i = (pos + k)%nat
    ∧ take (length sub) (drop k s) = sub
    ∧ (k + length sub ≤ length s)%nat.
Proof.
  revert pos. induction s as [|c s IH]; intros pos; cbn [find_at].
  - destruct (startswith [] sub) eqn:E; [|done].
    intros [= <-]. exists 0%nat. apply startswith_take in E as [E1 E2].
    rewrite drop_0. split_and!; [lia | done | simpl in *; lia].
  - destruct (startswith (c :: s) sub) eqn:E.
    + intros [= <-]. exists 0%nat. apply startswith_take in E as [E1 E2].
      rewrite drop_0. split_and!; [lia | done | simpl in *; lia].
    + intros H. apply IH in H as (k & -> & Hk & Hl).
      exists (S k). split_and!; [lia | done | simpl; lia].
Qed.

Lemma slice_take_drop {A} (s : list A) (a b : Z) :
  0 ≤ a → a ≤ b → b ≤ len s →
  slice s a b = take (Z.to_nat (b - a)) (drop (Z.to_nat a) s).
Proof.
  intros Ha Hab Hb. unfold slice, clamp.
  destruct (Z.ltb_spec a 0), (Z.ltb_spec b 0); try lia.
  by rewrite !Z.min_l by lia.
Qed.

(** What [find] returns when it finds. *)
Lemma find_found (s sub : str) (start : Z) :
  0 ≤ start → find s sub start ≠ -1 →
  start ≤ find s sub start
  ∧ find s sub start + len sub ≤ len s
  ∧ slice s (find s sub start) (find s sub start + len sub) = sub.
Proof.
  intros Hs. unfold find.
  destruct (Z.ltb_spec start 0) as [|_]; [lia|].
  destruct (Z.ltb_spec (len s) start) as [|Hle]; [done|].
  destruct (find_at _ _ _) as [i|] eqn:E; [|done]. intros _.
  apply find_at_occurs in E as (k & -> & Ht & Hl).
  rewrite length_drop in Hl. unfold len in *.
  split_and!; [lia | lia |].
  rewrite slice_take_drop by (unfold len; lia).
  rewrite drop_drop in Ht.
  replace (Z.to_nat (Z.of_nat (Z.to_nat start + k) + Z.of_nat (length sub)
                     - Z.of_nat (Z.to_nat start + k))) with (length sub) by lia.
  by rewrite Nat2Z.id.
Qed.

Lemma sentence_positions_from_chained context cur doc_sents :
  chained cur (sentence_positions_from context cur doc_sents).
Proof.
  revert cur. induction doc_sents as [|sent rest IH]; intros cur; simpl; [done|].
  split_and!; [| unfold len; lia | apply IH].
  destruct (Z.eqb_spec (find context sent cur) (-1)) as [|Hne]; [lia|].
  unfold find in *.
  destruct (Z.ltb_spec cur 0) as [Hneg|Hpos].
  - destruct (Z.ltb_spec (len context) (Z.max 0 (len context + cur))); [done|].
    destruct (find_at _ _ _) as [i|]; [lia | done].
  - destruct (Z.ltb_spec (len context) cur); [done|].
    destruct (find_at _ _ _) as [i|] eqn:E; [|done].
    apply find_at_occurs in E as (k & -> & _). lia.
Qed.

Lemma chained_lookup cur spans (i : nat) s e :
  chained cur spans → spans !! i = Some (s, e) → cur ≤ s ∧ s ≤ e.
Proof.
  revert cur i. induction spans as [|[s0 e0] rest IH]; intros cur i H Hi; [done|].
  destruct H as (H1 & H2 & H3). destruct i as [|i]; simpl in Hi.
  - by inversion Hi; subst.
  - destruct (IH _ _ H3 Hi). lia.
Qed.

Lemma chained_ordered cur spans (i j : nat) s e s' e' :
  chained cur spans → (i < j)%nat →
  spans !! i = Some (s, e) → spans !! j = Some (s', e') → e ≤ s'.
Proof.
  revert cur i j. induction spans as [|[s0 e0] rest IH]; intros cur i j H Hij Hi Hj; [done|].
  destruct H as (H1 & H2 & H3). destruct j as [|j]; [lia|]. simpl in Hj.
  destruct i as [|i]; simpl in Hi.
  - inversion Hi; subst. by destruct (chained_lookup _ _ _ _ _ H3 Hj).
  - eapply (IH e0 i j); [done | lia | done | done].
Qed.

Lemma length_sentence_positions_from context cur doc_sents :
  length (sentence_positions_from context cur doc_sents) = length doc_sents.
Proof.
  revert cur. induction doc_sents as [|sent rest IH]; intros cur; simpl; [done|].
  by rewrite IH.
Qed.

(** The span recorded for sentence [k], from the cursor the loop had. *)
Lemma sentence_positions_from_lookup context cur doc_sents (k : nat) sent :
  doc_sents !! k = Some sent →
  ∃ c : Z,
    c = match k with
        | O => cur
        | S k' => default 0 (snd <$> sentence_positions_from context cur doc_sents !! k')
        end
    ∧ sentence_positions_from context cur doc_sents !! k
      = Some (let f := find context sent c in
              let s := if f =? -1 then c else f in (s, s + len sent)).
Proof.
  revert cur k. induction doc_sents as [|sent0 rest IH]; intros cur k Hk; [done|].
  destruct k as [|k]; simpl in Hk.
  - inversion Hk; subst. by eexists.
  - destruct (IH (let f := find context sent0 cur in
                  (if f =? -1 then cur else f) + len sent0) k Hk) as (c & Hc & Hl).
    exists c. split; [|exact Hl].
    destruct k as [|k]; simpl; [done|]. exact Hc.
Qed.

(** ** Segmenters that cut without rewriting *)

Lemma startswith_complete (s sub : str) :
  take (length sub) s = sub → (length sub ≤ length s)%nat → startswith s sub = true.
Proof.
  revert s. induction sub as [|c sub IH]; intros s Ht Hl; [by destruct s|].
  destruct s as [|d s]; simpl in *; [lia|].
  inversion Ht as [[Hc Hs]]. rewrite Hs, N.eqb_refl. simpl.
  apply IH; [by rewrite Hs | lia].
Qed.

(** [find_at] returns the leftmost occurrence. *)
Lemma find_at_leftmost (s sub : str) (pos k : nat) :
  take (length sub) (drop k s) = sub → (k + length sub ≤ length s)%nat →
  ∃ i : nat, find_at s sub pos = Some i ∧ (pos ≤ i ≤ pos + k)%nat.
Proof.
  revert pos k. induction s as [|c s IH]; intros pos k Ht Hl; cbn [find_at].
  - simpl in Hl. assert (k = 0)%nat as -> by lia. rewrite drop_0 in Ht.
    rewrite startswith_complete by (done || simpl in *; lia).
    exists pos. split; [done | lia].
  - destruct (startswith (c :: s) sub) eqn:E.
    + exists pos. split; [done | lia].
    + destruct k as [|k].
      * rewrite drop_0 in Ht.
        rewrite startswith_complete in E by (done || simpl in *; lia). done.
      * simpl in Ht, Hl. destruct (IH (S pos) k Ht) as (i & Hi & Hb); [lia|].
        exists i. split; [done | lia].
Qed.

Lemma find_leftmost (s sub : str) (start a : Z) :
  0 ≤ start → start ≤ a → a + len sub ≤ len s → slice s a (a + len sub) = sub →
  find s sub start ≠ -1 ∧ start ≤ find s sub start ≤ a.
Proof.
  intros H0 Ha Hl Hs. assert (0 ≤ len sub) by (unfold len; lia).
  rewrite slice_take_drop in Hs by lia.
  replace (Z.to_nat (a + len sub - a)) with (length sub) in Hs by (unfold len; lia).
  unfold find. destruct (Z.ltb_spec start 0) as [|_]; [lia|].
  destruct (Z.ltb_spec (len s) start) as [|_]; [lia|].
  destruct (find_at_leftmost (drop (Z.to_nat start) s) sub (Z.to_nat start)
              (Z.to_nat a - Z.to_nat start)) as (i & -> & Hi).
  - rewrite drop_drop.
    by replace (Z.to_nat start + (Z.to_nat a - Z.to_nat start))%nat
      with (Z.to_nat a) by lia.
  - rewrite length_drop. unfold len in *. lia.
  - lia.
Qed.

Lemma sentence_positions_from_cut context cur doc_sents true_spans :
  0 ≤ cur → cut_at context cur doc_sents true_spans →
  Forall2 (λ sent '(s, e), cur ≤ s ∧ e ≤ len context ∧ slice context s e = sent)
    doc_sents (sentence_positions_from context cur doc_sents).
Proof.
  revert cur true_spans. induction doc_sents as [|sent rest IH];
    intros cur [|[a b] true_spans] Hc H; simpl in H; try done; try by constructor.
  destruct H as (Ha & -> & Hb & Hs & Hrest). cbn [sentence_positions_from].
  destruct (find_leftmost context sent cur a Hc Ha Hb Hs) as (Hf & Hlo & Hhi).
  destruct (find_found context sent cur Hc Hf) as (_ & Hend & Hslice).
  rewrite (proj2 (Z.eqb_neq _ _) Hf).
  assert (0 ≤ len sent) by (unfold len; lia).
  constructor; [done|].
  assert (cut_at context (find context sent cur + len sent) rest true_spans) as Hcut.
  { clear -Hrest Hhi. destruct rest as [|s2 rest], true_spans as [|[a2 b2] sp];
      simpl in *; try done. destruct Hrest as (? & ? & ? & ? & ?).
    split_and!; (done || lia). }
  eapply Forall2_impl; [apply (IH _ true_spans); [lia | exact Hcut]|].
  intros s2 [s e] (? & ? & ?). split_and!; (done || lia).
Qed.

(** ** The error monad *)

Lemma bind_Ok {A B} (m : result A) (k : A → result B) (b : B) :
  m ≫= k = Ok b → ∃ a, m = Ok a ∧ k a = Ok b.
Proof. destruct m as [a|e]; [by exists a | done]. Qed.

Lemma mapM_Ok {A B} (f : A → result B) (l : list A) (ys : list B) :
  mapM f l = Ok ys → Forall2 (λ x y, f x = Ok y) l ys.
Proof.
  revert ys. induction l as [|x l IH]; intros ys; cbn [mapM].
  - intros [= <-]. constructor.
  - intros H. apply bind_Ok in H as (y & Hy & H).
    apply bind_Ok in H as (ys' & Hys & [= <-]).
    constructor; [done | by apply IH].
Qed.

Lemma index_Ok {A} (l : list A) (i : nat) (x : A) :
  index l i = Ok x ↔ l !! i = Some x.
Proof. unfold index. destruct (l !! i); split; congruence. Qed.

(** ** Resolution of the predicted indices *)

Lemma in_range_lookup {A} (doc_sents : list str) (l : list A) (i : Z) :
  length l = length doc_sents → in_range doc_sents i →
  ∃ x, l !! Z.to_nat i = Some x.
Proof.
  intros Hl [H0 H1]. apply lookup_lt_is_Some_2. unfold len in H1. lia.
Qed.

Lemma in_range_test doc_sents i :
  (0 <=? i) && (i <? len doc_sents) = bool_decide (in_range doc_sents i).
Proof.
  unfold in_range. case_bool_decide as H.
  - apply andb_true_intro. split; [apply Z.leb_le | apply Z.ltb_lt]; lia.
  - apply andb_false_iff.
    destruct (Z.leb_spec 0 i); [right; apply Z.ltb_ge; lia | by left].
Qed.

Lemma highlights_of_resolved doc_sents spans preds :
  length spans = length doc_sents →
  highlights_of doc_sents spans preds
  = Ok (highlight_of spans <$> filter (in_range doc_sents) preds).
Proof.
  intros Hl. induction preds as [|i preds IH]; cbn [highlights_of]; [done|].
  rewrite in_range_test, filter_cons. case_bool_decide as Hi.
  - rewrite decide_True by done.
    destruct (in_range_lookup doc_sents spans i Hl Hi) as [[s e] Hs].
    unfold index. rewrite Hs, IH. cbn.
    unfold highlight_of, span_of. by rewrite Hs.
  - by rewrite decide_False by done.
Qed.

Lemma scored_highlights_of_resolved doc_sents spans preds :
  length spans = length doc_sents →
  scored_highlights_of doc_sents spans preds
  = Ok (scored_highlight_of doc_sents spans <$> filter (in_range doc_sents) preds).
Proof.
  intros Hl. induction preds as [|i preds IH]; cbn [scored_highlights_of]; [done|].
  rewrite in_range_test, filter_cons. case_bool_decide as Hi.
  - rewrite decide_True by done.
    destruct (in_range_lookup doc_sents spans i Hl Hi) as [[s e] Hs].
    destruct (in_range_lookup doc_sents doc_sents i eq_refl Hi) as [t Ht].
    unfold index. rewrite Hs, Ht, IH. cbn.
    unfold scored_highlight_of, span_of. by rewrite Hs, Ht.
  - by rewrite decide_False by done.
Qed.

Lemma StronglySorted_filter {A} (R : relation A) (P : A → Prop)
    `{∀ x, Decision (P x)} (l : list A) :
  StronglySorted R l → StronglySorted R (filter P l).
Proof.
  induction 1 as [|x l Hs IH Hx]; [constructor|].
  rewrite filter_cons. destruct (decide (P x)); [|done].
  constructor; [done|]. apply Forall_forall. intros y [_ Hy]%list_elem_of_filter.
  by eapply Forall_forall in Hx.
Qed.

(** ** The selection rule *)

Lemma where_from_sorted (i : Z) (hits : list bool) :
  StronglySorted Z.lt (where_from i hits) ∧ Forall (λ j, i ≤ j) (where_from i hits).
Proof.
  revert i. induction hits as [|h hits IH]; intros i; cbn [where_from].
  - split; constructor.
  - destruct (IH (i + 1)) as [Hs Hf]. destruct h.
    + split.
      * constructor; [done|]. eapply Forall_impl; [exact Hf|]. simpl. lia.
      * constructor; [lia|]. eapply Forall_impl; [exact Hf|]. simpl. lia.
    + split; [done|]. eapply Forall_impl; [exact Hf|]. simpl. lia.
Qed.

Lemma elem_of_where_from (i j : Z) (hits : list bool) :
  j ∈ where_from i hits ↔ ∃ k : nat, hits !! k = Some true ∧ j = i + Z.of_nat k.
Proof.
  revert i. induction hits as [|h hits IH]; intros i; cbn [where_from].
  - split; [by intros ?%elem_of_nil | by intros (k & ? & _)].
  - assert (j ∈ where_from (i + 1) hits ↔
            ∃ k : nat, (h :: hits) !! S k = Some true ∧ j = i + Z.of_nat (S k)) as Htl.
    { rewrite IH. split; intros (k & Hk & ->); exists k; (split; [done | lia]). }
    destruct h.
    + rewrite elem_of_cons, Htl. split.
      * intros [-> | (k & Hk & ->)]; [exists 0%nat | exists (S k)]; (split; [done | lia]).
      * intros ([|k] & Hk & ->); [left; lia | right; by exists k].
    + rewrite Htl. split.
      * intros (k & Hk & ->). by exists (S k).
      * intros ([|k] & Hk & ->); [done | by exists k].
Qed.

Lemma preds_item_sorted th al p off ns l :
  preds_item th al p off ns = Ok l → StronglySorted Z.lt l.
Proof.
  unfold preds_item. destruct (ns =? 0); [intros [= <-]; constructor|].
  intros H. apply bind_Ok in H as (hits & _ & [= <-]).
  apply StronglySorted_fmap with (R1 := Z.lt); [intros; lia|].
  apply where_from_sorted.
Qed.

Lemma _get_preds_sorted th al pp offs num_s preds :
  _get_preds th al pp offs num_s = Ok preds →
  Forall (StronglySorted Z.lt) preds.
Proof.
  unfold _get_preds. intros H%mapM_Ok.
  induction H as [|[[p off] ns] l ? ? Hl _ IH]; constructor; [|done].
  by eapply preds_item_sorted.
Qed.

Lemma StronglySorted_lookup_lt {A} (R : relation A) (l : list A) (i j : nat) x y :
  StronglySorted R l → (i < j)%nat → l !! i = Some x → l !! j = Some y → R x y.
Proof.
  intros Hs. revert i j. induction Hs as [|a l Hs IH Ha]; intros i j Hij Hi Hj; [done|].
  destruct j as [|j]; [lia|]. destruct i as [|i]; simpl in *.
  - inversion Hi; subst. eapply Forall_forall in Ha; [done|].
    by eapply list_elem_of_lookup_2.
  - eapply (IH i j); [lia | done | done].
Qed.

(** The span of sentence [k], read off the loop. *)
Lemma sentence_positions_lookup context doc_sents (k : nat) sent :
  doc_sents !! k = Some sent →
  sentence_positions context doc_sents !! k
  = Some (let f := find context sent (cursor_at context doc_sents k) in
          let s := if f =? -1 then cursor_at context doc_sents k else f in
          (s, s + len sent)).
Proof.
  intros Hk. unfold sentence_positions.
  destruct (sentence_positions_from_lookup context 0 doc_sents k sent Hk) as (c & -> & H).
  exact H.
Qed.

Lemma cursor_at_nonneg context doc_sents k : 0 ≤ cursor_at context doc_sents k.
Proof.
  destruct k as [|k]; simpl; [done|].
  destruct (sentence_positions context doc_sents !! k) as [[s e]|] eqn:E; simpl; [|done].
  pose proof (sentence_positions_from_chained context 0 doc_sents) as Hc.
  destruct (chained_lookup _ _ _ _ _ Hc E). lia.
Qed.

Section PipelineProperties.

Variable sent_tokenize : str → list str.
Variable tokenizer : list (list str) → list (list str) → Z → Z → BatchEncoding.
Variable bert : list (list Z) → list (list Z) → list (list Z) → list (list vec).
Variable classifier : vec → Q.
Variable hidden_size : nat.
Variable hidden_dropout_prob : Q.

(** The two entry points and their shared middle, on these collaborators. *)
Abbreviation first_window_predictions :=
  (predictions tokenizer bert classifier hidden_size hidden_dropout_prob).
Abbreviation highlight :=
  (_process_single sent_tokenize tokenizer bert classifier hidden_size
     hidden_dropout_prob).
Abbreviation scored_highlight :=
  (SemanticHighlighterHandler_process_single sent_tokenize tokenizer bert classifier
     hidden_size hidden_dropout_prob).

Lemma predictions_sorted model noise question doc_sents preds :
  first_window_predictions model noise question doc_sents = Ok preds →
  Forall (StronglySorted Z.lt) preds.
Proof.
  unfold predictions. destruct (prepare_words 0 doc_sents) as [words sentence_ids].
  intros H. apply bind_Ok in H as (feats & _ & H).
  apply bind_Ok in H as (example & _ & H).
  unfold forward in H. apply bind_Ok in H as ([[agg offs] ns] & _ & H).
  by eapply _get_preds_sorted.
Qed.

(** The indices a call resolves: strictly ascending and in range. *)
Lemma selected_indices model noise question context :
  ∀ preds0,
    (∃ rest, first_window_predictions model noise question (sent_tokenize context)
             = Ok (preds0 :: rest)) →
    let idxs := filter (in_range (sent_tokenize context)) preds0 in
    StronglySorted Z.lt idxs ∧ Forall (in_range (sent_tokenize context)) idxs.
Proof.
  intros preds0 [rest H] idxs. split.
  - apply StronglySorted_filter.
    apply predictions_sorted in H. by inversion H.
  - apply Forall_forall. by intros i [Hi _]%list_elem_of_filter.
Qed.

Lemma _process_single_resolved model noise question context hs :
  highlight model noise question context = Ok hs →
  ∃ idxs,
    StronglySorted Z.lt idxs
    ∧ Forall (in_range (sent_tokenize context)) idxs
    ∧ hs = highlight_of (sentence_positions context (sent_tokenize context)) <$> idxs.
Proof.
  unfold _process_single.
  destruct (sent_tokenize context) as [|sent rest] eqn:Ed.
  { intros [= <-]. exists []. split_and!; by constructor. }
  rewrite <- Ed. intros H. apply bind_Ok in H as (preds & Hp & H).
  destruct preds as [|preds0 preds].
  { inversion H; subst. exists []. split_and!; by constructor. }
  destruct (0 <? len preds0).
  - rewrite highlights_of_resolved in H
      by apply length_sentence_positions_from.
    inversion H; subst.
    destruct (selected_indices model noise question context preds0) as [H1 H2];
      [by eexists|].
    eexists. split_and!; [exact H1 | exact H2 | done].
  - inversion H; subst. exists []. split_and!; by constructor.
Qed.

Lemma SemanticHighlighterHandler_process_single_resolved
    model noise question context shs :
  scored_highlight model noise question context = Ok shs →
  ∃ idxs,
    StronglySorted Z.lt idxs
    ∧ Forall (in_range (sent_tokenize context)) idxs
    ∧ shs = scored_highlight_of (sent_tokenize context)
              (sentence_positions context (sent_tokenize context)) <$> idxs.
Proof.
  unfold SemanticHighlighterHandler_process_single.
  destruct (sent_tokenize context) as [|sent rest] eqn:Ed.
  { intros [= <-]. exists []. split_and!; by constructor. }
  rewrite <- Ed. intros H. apply bind_Ok in H as (preds & Hp & H).
  destruct preds as [|preds0 preds].
  { inversion H; subst. exists []. split_and!; by constructor. }
  destruct (0 <? len preds0).
  - rewrite scored_highlights_of_resolved in H
      by apply length_sentence_positions_from.
    inversion H; subst.
    destruct (selected_indices model noise question context preds0) as [H1 H2];
      [by eexists|].
    eexists. split_and!; [exact H1 | exact H2 | done].
  - inversion H; subst. exists []. split_and!; by constructor.
Qed.

(** ** Span validity *)

(** C3. Every highlight returned is the span of a segmented sentence,
    with [0 <= start <= end]; when the substring search located that
    sentence, the span ends within the passage and the passage sliced at
    the span is the sentence's text. When the segmenter returns the
    sentences as they stand in the passage, one after the other, as
    NLTK's does, the search locates every sentence, so every highlight
    ends within the passage. *)
Theorem highlight_span_valid model noise question context hs h :
  highlight model noise question context = Ok hs → h ∈ hs →
  0 ≤ start h ∧ start h ≤ end_ h
  ∧ ∃ (k : nat) (sent : str),
      sent_tokenize context !! k = Some sent
      ∧ sentence_positions context (sent_tokenize context) !! k
        = Some (start h, end_ h)
      ∧ (find context sent (cursor_at context (sent_tokenize context) k) ≠ -1 →
         end_ h ≤ len context ∧ slice context (start h) (end_ h) = sent)
      ∧ (∀ true_spans, cut_at context 0 (sent_tokenize context) true_spans →
         find context sent (cursor_at context (sent_tokenize context) k) ≠ -1
         ∧ end_ h ≤ len context).
Proof.
  intros H Hh. apply _process_single_resolved in H as (idxs & _ & Hr & ->).
  apply list_elem_of_fmap in Hh as (i & -> & Hi).
  eapply Forall_forall in Hr; [|exact Hi].
  destruct (in_range_lookup _ (sent_tokenize context) i eq_refl Hr) as [sent Hs].
  pose proof (sentence_positions_lookup context _ _ _ Hs) as Hp.
  pose proof (cursor_at_nonneg context (sent_tokenize context) (Z.to_nat i)) as Hc.
  assert (Hcut : ∀ true_spans, cut_at context 0 (sent_tokenize context) true_spans →
    find context sent (cursor_at context (sent_tokenize context) (Z.to_nat i)) ≠ -1).
  { intros true_spans Hcut Hf.
    pose proof (sentence_positions_from_cut context 0 _ _ (Z.le_refl 0) Hcut) as HF.
    fold (sentence_positions context (sent_tokenize context)) in HF.
    destruct (Forall2_lookup_l _ _ _ _ _ HF Hs) as ([s e] & Hp' & _ & He & Hsl).
    rewrite Hp in Hp'. cbv zeta in Hp'. rewrite Hf in Hp'. simpl in Hp'.
    inversion Hp'; subst s e.
    by destruct (find_leftmost context sent _ _ Hc (Z.le_refl _) He Hsl) as [Hne _]. }
  set (cur := cursor_at context (sent_tokenize context) (Z.to_nat i)) in *.
  assert (0 ≤ len sent) by (unfold len; lia).
  unfold highlight_of, span_of. revert Hp. cbv zeta.
  destruct (Z.eqb_spec (find context sent cur) (-1)) as [Hf|Hf]; intros Hp;
    rewrite Hp; cbn [from_option Datatypes.id fst snd start end_].
  - split_and!; [lia | lia |]. exists (Z.to_nat i), sent.
    split_and!; [done | done | done |].
    intros true_spans Ht. by destruct (Hcut true_spans Ht).
  - destruct (find_found context sent cur Hc Hf) as (H1 & H2 & H3).
    split_and!; [lia | lia |]. exists (Z.to_nat i), sent.
    split_and!; [done | done | by intros _ | by intros _ _].
Qed.

(** ** Order and disjointness *)

(** C4. The highlights returned are the spans of a strictly ascending
    list of sentence indices, the spans of two of them never overlap
    (the earlier ends before the later starts), and in the full list of
    sentence spans every span starts at or after the end, and so at or
    after the start, of every earlier one. The positions reported by the
    TorchServe handler are strictly ascending as well. *)
Theorem highlights_ascending_disjoint model noise question context :
  let doc_sents := sent_tokenize context in
  let spans := sentence_positions context doc_sents in
  (∀ hs, highlight model noise question context = Ok hs →
     (∃ idxs, StronglySorted Z.lt idxs ∧ Forall (in_range doc_sents) idxs
              ∧ hs = highlight_of spans <$> idxs)
     ∧ ∀ (i j : nat) h h', (i < j)%nat → hs !! i = Some h → hs !! j = Some h' →
         end_ h ≤ start h')
  ∧ (∀ shs, scored_highlight model noise question context = Ok shs →
       StronglySorted Z.lt (sh_position <$> shs)
       ∧ ∀ (i j : nat) h h', (i < j)%nat → shs !! i = Some h → shs !! j = Some h' →
           sh_end h ≤ sh_start h')
  ∧ (∀ (i j : nat) s e s' e', (i < j)%nat →
       spans !! i = Some (s, e) → spans !! j = Some (s', e') → e ≤ s' ∧ s ≤ s').
Proof.
  intros doc_sents spans.
  assert (Hch : chained 0 spans) by apply sentence_positions_from_chained.
  assert (Hlen : length spans = length doc_sents)
    by apply length_sentence_positions_from.
  assert (Hpair : ∀ idxs (i j : nat) a b,
    StronglySorted Z.lt idxs → Forall (in_range doc_sents) idxs → (i < j)%nat →
    idxs !! i = Some a → idxs !! j = Some b →
    (span_of spans a).2 ≤ (span_of spans b).1).
  { intros idxs i j a b Hs Hr Hij Ha Hb.
    pose proof (StronglySorted_lookup_lt _ _ _ _ _ _ Hs Hij Ha Hb) as Hab.
    assert (Hra : in_range doc_sents a)
      by (eapply Forall_forall in Hr; [done | by eapply list_elem_of_lookup_2]).
    assert (Hrb : in_range doc_sents b)
      by (eapply Forall_forall in Hr; [done | by eapply list_elem_of_lookup_2]).
    destruct (in_range_lookup doc_sents spans a Hlen Hra) as [[sa ea] Ea].
    destruct (in_range_lookup doc_sents spans b Hlen Hrb) as [[sb eb] Eb].
    unfold span_of. rewrite Ea, Eb. simpl.
    eapply (chained_ordered 0 spans (Z.to_nat a) (Z.to_nat b)); [done | | done | done].
    destruct Hra, Hrb. lia. }
  split_and!.
  - intros hs H. apply _process_single_resolved in H as (idxs & Hs & Hr & ->).
    split; [by exists idxs|].
    intros i j h h' Hij Hi Hj.
    apply list_lookup_fmap_Some in Hi as (a & -> & Ha).
    apply list_lookup_fmap_Some in Hj as (b & -> & Hb).
    by eapply Hpair.
  - intros shs H.
    apply SemanticHighlighterHandler_process_single_resolved
      in H as (idxs & Hs & Hr & ->).
    split.
    + replace (sh_position <$> (scored_highlight_of doc_sents spans <$> idxs))
        with idxs; [done|].
      clear. induction idxs as [|i idxs IH]; [done|]. cbn. by f_equal.
    + intros i j h h' Hij Hi Hj.
      apply list_lookup_fmap_Some in Hi as (a & -> & Ha).
      apply list_lookup_fmap_Some in Hj as (b & -> & Hb).
      by eapply Hpair.
  - intros i j s e s' e' Hij Hi Hj.
    pose proof (chained_ordered _ _ _ _ _ _ _ _ Hch Hij Hi Hj).
    destruct (chained_lookup _ _ _ _ _ Hch Hi). lia.
Qed.

(** ** Empty passages *)

(** NLTK's segmenter finds no sentence in the empty text. *)
Hypothesis sent_tokenize_empty : sent_tokenize [] = [].

(** C7. When the passage is empty or is segmented into zero sentences,
    both handlers return the empty highlight list and raise nothing; in
    particular the empty passage yields the empty list. *)
Theorem empty_passage_no_highlights model noise question context :
  context = [] ∨ sent_tokenize context = [] →
  highlight model noise question context = Ok []
  ∧ scored_highlight model noise question context = Ok []
  ∧ highlight model noise question [] = Ok [].
Proof.
  intros H.
  assert (Hn : sent_tokenize context = []) by (destruct H as [-> | H]; done).
  unfold _process_single, SemanticHighlighterHandler_process_single.
  by rewrite Hn, sent_tokenize_empty.
Qed.

(** ** Determinism *)

(** C9. With the model as initialization leaves it (evaluation mode),
    the highlights do not depend on the randomness of the dropout layer:
    two calls on the same question and passage return the same result. *)
Theorem highlight_deterministic noise1 noise2 question context :
  highlight loaded_model noise1 question context
  = highlight loaded_model noise2 question context
  ∧ scored_highlight loaded_model noise1 question context
    = scored_highlight loaded_model noise2 question context.
Proof. split; reflexivity. Qed.

(** ** Span lengths *)

(** C10. The span recorded for every segmented sentence, found or
    placed at the cursor, is as long as the sentence's text, and so is
    the span of every highlight either handler returns. *)
Theorem span_length_is_sentence_length model noise question context :
  let doc_sents := sent_tokenize context in
  let spans := sentence_positions context doc_sents in
  (∀ (k : nat) s e sent,
     doc_sents !! k = Some sent → spans !! k = Some (s, e) → e - s = len sent)
  ∧ (∀ hs h, highlight model noise question context = Ok hs → h ∈ hs →
       ∃ (k : nat) sent, doc_sents !! k = Some sent
         ∧ spans !! k = Some (start h, end_ h)
         ∧ end_ h - start h = len sent)
  ∧ (∀ shs h, scored_highlight model noise question context = Ok shs → h ∈ shs →
       doc_sents !! Z.to_nat (sh_position h) = Some (sh_text h)
       ∧ spans !! Z.to_nat (sh_position h) = Some (sh_start h, sh_end h)
       ∧ sh_end h - sh_start h = len (sh_text h)).
Proof.
  intros doc_sents spans.
  assert (Hk : ∀ (k : nat) s e sent,
    doc_sents !! k = Some sent → spans !! k = Some (s, e) → e - s = len sent).
  { intros k s e sent Hs Hp. subst spans.
    rewrite (sentence_positions_lookup _ _ _ _ Hs) in Hp.
    cbv zeta in Hp. inversion Hp; subst. lia. }
  split_and!; [exact Hk | |].
  - intros hs h H Hh. apply _process_single_resolved in H as (idxs & _ & Hr & ->).
    apply list_elem_of_fmap in Hh as (i & -> & Hi).
    eapply Forall_forall in Hr; [|exact Hi].
    destruct (in_range_lookup _ doc_sents i eq_refl Hr) as [sent Hs].
    destruct (in_range_lookup doc_sents spans i
                (length_sentence_positions_from _ _ _) Hr) as [[s e] Hp].
    exists (Z.to_nat i), sent. unfold highlight_of, span_of. fold doc_sents spans.
    rewrite Hp. simpl. split_and!; [done | done | by eapply Hk].
  - intros shs h H Hh.
    apply SemanticHighlighterHandler_process_single_resolved
      in H as (idxs & _ & Hr & ->).
    apply list_elem_of_fmap in Hh as (i & -> & Hi).
    eapply Forall_forall in Hr; [|exact Hi].
    destruct (in_range_lookup _ doc_sents i eq_refl Hr) as [sent Hs].
    destruct (in_range_lookup doc_sents spans i
                (length_sentence_positions_from _ _ _) Hr) as [[s e] Hp].
    unfold scored_highlight_of, span_of. fold doc_sents spans.
    rewrite Hp, Hs. simpl. split_and!; [done | done | by eapply Hk].
Qed.

End PipelineProperties.

(** ** Out-of-range indices *)

(** C8. In the loop that resolves the predicted indices, an index outside
    [0, len(doc_sents)) adds no highlight and raises nothing, and every
    index inside adds the span computed for that sentence: the loop
    returns the spans of the in-range indices, in order. *)
Theorem out_of_range_indices_dropped (context : str) (doc_sents : list str)
    (preds : list Z) :
  let spans := sentence_positions context doc_sents in
  highlights_of doc_sents spans preds
  = Ok (highlight_of spans <$> filter (in_range doc_sents) preds)
  ∧ scored_highlights_of doc_sents spans preds
    = Ok (scored_highlight_of doc_sents spans <$> filter (in_range doc_sents) preds)
  ∧ ∀ i, in_range doc_sents i →
      ∃ s e, spans !! Z.to_nat i = Some (s, e)
             ∧ highlight_of spans i = {| start := s; end_ := e |}.
Proof.
  intros spans.
  assert (Hlen : length spans = length doc_sents)
    by apply length_sentence_positions_from.
  split_and!.
  - by apply highlights_of_resolved.
  - by apply scored_highlights_of_resolved.
  - intros i Hi. destruct (in_range_lookup doc_sents spans i Hlen Hi) as [[s e] Hs].
    exists s, e. split; [done|]. unfold highlight_of, span_of. by rewrite Hs.
Qed.

(** ** The threshold and the backoff *)

Lemma slice_to_take {A} (p : list A) (ns : Z) :
  0 ≤ ns → ns ≤ len p → slice_to p ns = take (Z.to_nat ns) p.
Proof.
  intros H0 H1. unfold slice_to. rewrite slice_take_drop by lia.
  rewrite Z.sub_0_r. by rewrite drop_0.
Qed.

Lemma tensor_sum_nonneg hits : 0 ≤ tensor_sum hits.
Proof. induction hits as [|[] hits IH]; simpl; lia. Qed.

Lemma tensor_sum_zero hits :
  tensor_sum hits = 0 ↔ Forall (λ h, h = false) hits.
Proof.
  induction hits as [|h hits IH]; simpl.
  - split; [constructor | done].
  - pose proof (tensor_sum_nonneg hits). destruct h; simpl.
    + split; [lia | by inversion 1].
    + rewrite IH. split; [by constructor | by inversion 1].
Qed.

Lemma where_from_none i hits :
  Forall (λ h, h = false) hits → where_from i hits = [].
Proof.
  intros H. revert i. induction H as [|h hits -> _ IH]; intros i; simpl; [done|].
  apply IH.
Qed.

Lemma where_from_single i hits (a : nat) :
  Forall (λ h, h = false) hits → (a < length hits)%nat →
  where_from i (<[a := true]> hits) = [i + Z.of_nat a].
Proof.
  intros H. revert i a. induction H as [|h hits -> Hf IH]; intros i a Ha; simpl in Ha.
  - lia.
  - destruct a as [|a]; simpl.
    + rewrite where_from_none by done. f_equal. lia.
    + rewrite IH by lia. f_equal. lia.
Qed.

Lemma Qmax_ge_l a b : (a <= Qmax a b)%Q.
Proof.
  unfold Qmax. destruct (Qle_bool a b) eqn:E.
  - by apply Qle_bool_iff. - apply Qle_refl.
Qed.

Lemma Qmax_ge_r a b : (b <= Qmax a b)%Q.
Proof.
  unfold Qmax. destruct (Qle_bool a b) eqn:E; [apply Qle_refl|].
  apply Qlt_le_weak, Qnot_le_lt. intros H%Qle_bool_iff. congruence.
Qed.

Lemma foldl_Qmax_ge x l :
  (x <= foldl Qmax x l)%Q ∧ Forall (λ y, (y <= foldl Qmax x l)%Q) l.
Proof.
  revert x. induction l as [|y l IH]; intros x; simpl.
  - split; [apply Qle_refl | constructor].
  - destruct (IH (Qmax x y)) as [H1 H2]. split_and!.
    + eapply Qle_trans; [apply Qmax_ge_l | exact H1].
    + constructor; [|done]. eapply Qle_trans; [apply Qmax_ge_r | exact H1].
Qed.

Lemma foldl_Qmax_elem x l : foldl Qmax x l ∈ x :: l.
Proof.
  revert x. induction l as [|y l IH]; intros x; simpl; [by left|].
  specialize (IH (Qmax x y)). apply elem_of_cons in IH as [-> | IH].
  - unfold Qmax. destruct (Qle_bool x y); [right; by left | by left].
  - right. by right.
Qed.

(** [argmax_from] continues a scan that has read [pre] and holds its
    maximum [best], found at [besti]. *)
Lemma argmax_from_spec (pre t : list Q) (best : Q) (besti : nat) :
  (pre ++ t) !! besti = Some best → (besti < length pre)%nat →
  Forall (λ y, (y <= best)%Q) pre →
  ∃ v, (pre ++ t) !! argmax_from best besti (length pre) t = Some v
       ∧ Forall (λ y, (y <= v)%Q) (pre ++ t).
Proof.
  revert pre best besti. induction t as [|x t IH]; intros pre best besti Hb Hlt Hpre.
  - simpl. exists best. by rewrite app_nil_r in *.
  - cbn [argmax_from]. replace (pre ++ x :: t) with ((pre ++ [x]) ++ t) in *
      by (by rewrite <- app_assoc).
    replace (S (length pre)) with (length (pre ++ [x]))
      by (rewrite length_app; simpl; lia).
    destruct (Qle_bool x best) eqn:E.
    + apply IH; [done | rewrite length_app; simpl; lia |].
      apply Forall_app. split; [done|]. constructor; [|constructor].
      by apply Qle_bool_iff.
    + assert (best < x)%Q as Hx.
      { apply Qnot_le_lt. intros H%Qle_bool_iff. congruence. }
      apply IH.
      * rewrite lookup_app_l by (rewrite length_app; simpl; lia).
        by rewrite list_lookup_middle.
      * rewrite length_app; simpl; lia.
      * apply Forall_app. split.
        -- eapply Forall_impl; [exact Hpre|]. simpl. intros y Hy.
           eapply Qle_trans; [exact Hy | by apply Qlt_le_weak].
        -- constructor; [apply Qle_refl | constructor].
Qed.

Lemma argmax_spec (t : list Q) :
  t ≠ [] →
  ∃ v, t !! argmax t = Some v ∧ Forall (λ y, (y <= v)%Q) t.
Proof.
  destruct t as [|x t]; [done|]. intros _. unfold argmax.
  apply (argmax_from_spec [x] t x 0%nat); [done | simpl; lia |].
  constructor; [apply Qle_refl | constructor].
Qed.

(** C2. In a window with [ns > 0] sentence positions the selector returns
    the selected positions shifted by the window offset, where every
    position whose probability is at least 0.5 is selected; when no
    position reaches 0.5 and some probability is at least 0.05, exactly
    one position is selected and it holds the maximum; and when every
    probability is below 0.05 no position is selected. *)
Theorem selection_rule (p : list Q) (off ns : Z) :
  0 < ns → ns ≤ len p →
  ∃ sel : list Z,
    preds_item threshold alpha p off ns = Ok ((λ i, i + off) <$> sel)
    ∧ (∀ i, i ∈ sel → 0 ≤ i < ns)
    ∧ (∀ (j : nat) x, Z.of_nat j < ns → p !! j = Some x →
         (1 # 2 <= x)%Q → Z.of_nat j ∈ sel)
    ∧ ((∀ (j : nat) x, Z.of_nat j < ns → p !! j = Some x → (x < 1 # 2)%Q) →
       (∃ (j : nat) x, Z.of_nat j < ns ∧ p !! j = Some x ∧ (1 # 20 <= x)%Q) →
       ∃ (j : nat) x,
         sel = [Z.of_nat j] ∧ Z.of_nat j < ns ∧ p !! j = Some x
         ∧ ∀ (k : nat) y, Z.of_nat k < ns → p !! k = Some y → (y <= x)%Q)
    ∧ ((∀ (j : nat) x, Z.of_nat j < ns → p !! j = Some x → (x < 1 # 20)%Q) →
       sel = []).
Proof.
  intros Hns Hlen. unfold preds_item.
  destruct (Z.eqb_spec ns 0) as [|_]; [lia|].
  rewrite slice_to_take by lia.
  set (rel := take (Z.to_nat ns) p).
  set (hits := (λ x, Qle_bool threshold x) <$> rel).
  assert (Hrel : ∀ (j : nat) x, rel !! j = Some x ↔ Z.of_nat j < ns ∧ p !! j = Some x).
  { intros j x. unfold rel. rewrite lookup_take_Some. split; intros [? ?]; split; (done || lia). }
  assert (Hlrel : length rel = Z.to_nat ns).
  { unfold rel. rewrite length_take. unfold len in Hlen. lia. }
  assert (Hhit : ∀ (j : nat), hits !! j = Some true ↔
                 ∃ x, rel !! j = Some x ∧ (1 # 2 <= x)%Q).
  { intros j. unfold hits. rewrite list_lookup_fmap. split.
    - destruct (rel !! j) as [x|]; [|done]. simpl. intros [= H].
      exists x. split; [done|]. by apply Qle_bool_iff.
    - intros (x & -> & Hx). simpl. f_equal. by apply Qle_bool_iff. }
  assert (Hwhere : ∀ i hs, i ∈ where_true hs → 0 ≤ i < Z.of_nat (length hs)).
  { intros i hs (k & Hk & ->)%elem_of_where_from.
    apply lookup_lt_Some in Hk. lia. }
  assert (Hlh : length hits = Z.to_nat ns) by (unfold hits; by rewrite length_fmap).
  destruct (Z.eqb_spec (tensor_sum hits) 0) as [Hz|Hnz].
  - (* no position reaches the threshold *)
    apply tensor_sum_zero in Hz.
    assert (Hbelow : ∀ (j : nat) x, Z.of_nat j < ns → p !! j = Some x → ¬ (1 # 2 <= x)%Q).
    { intros j x Hj Hx Hge.
      assert (hits !! j = Some true) as Ht by (apply Hhit; exists x; by rewrite Hrel).
      eapply Forall_lookup_1 in Hz; [|exact Ht]. done. }
    destruct rel as [|r0 rel'] eqn:Erel; [simpl in Hlrel; lia|].
    cbn [tensor_maxQ mbind result_bind].
    destruct (foldl_Qmax_ge r0 rel') as [Hm0 Hm]. pose proof (foldl_Qmax_elem r0 rel') as Hel.
    set (mx := foldl Qmax r0 rel') in *.
    assert (Hmax : ∀ (k : nat) y, Z.of_nat k < ns → p !! k = Some y → (y <= mx)%Q).
    { intros k y Hk Hy. assert ((r0 :: rel') !! k = Some y) as Hr by by apply Hrel.
      destruct k as [|k]; simpl in Hr; [by inversion Hr; subst|].
      eapply Forall_lookup_1 in Hm; [|exact Hr]. done. }
    destruct (Qle_bool alpha mx) eqn:Ea.
    + (* backoff *)
      apply Qle_bool_iff in Ea.
      destruct (argmax_spec (r0 :: rel')) as (v & Hv & Hall); [done|].
      assert (Hlt : (argmax (r0 :: rel') < length hits)%nat).
      { apply lookup_lt_Some in Hv. rewrite Hlh, <- Hlrel. done. }
      exists [Z.of_nat (argmax (r0 :: rel'))]. unfold where_true.
      cbn [mbind result_bind]. rewrite where_from_single by done. split_and!.
      * done.
      * intros i ->%list_elem_of_singleton. lia.
      * intros j x Hj Hx Hge. by destruct (Hbelow j x).
      * intros _ _. apply Hrel in Hv as [Hv1 Hv2].
        exists (argmax (r0 :: rel')), v. split_and!; [done | done | done |].
        intros k y Hk Hy. assert ((r0 :: rel') !! k = Some y) as Hr by by apply Hrel.
        eapply Forall_lookup_1 in Hall; [|exact Hr]. done.
      * intros Hlow. apply list_elem_of_lookup in Hel as [k Hk].
        apply Hrel in Hk as [Hk1 Hk2]. specialize (Hlow k mx Hk1 Hk2).
        unfold alpha in Ea. exfalso. eapply Qlt_not_le; [exact Hlow | exact Ea].
    + (* nothing to select *)
      exists []. unfold where_true.
      cbn [mbind result_bind]. rewrite where_from_none by done. split_and!.
      * done.
      * by intros i ?%elem_of_nil.
      * intros j x Hj Hx Hge. by destruct (Hbelow j x).
      * intros _ (j & x & Hj & Hx & Hge). exfalso.
        assert (alpha <= mx)%Q as Hle
          by (eapply Qle_trans; [exact Hge | by eapply Hmax]).
        apply Qle_bool_iff in Hle. congruence.
      * done.
  - (* some position reaches the threshold *)
    assert (Hsome : ∃ (j : nat), hits !! j = Some true).
    { destruct (decide (Forall (λ h, h = false) hits)) as [Hf|Hf].
      - by apply tensor_sum_zero in Hf.
      - apply not_Forall_Exists in Hf; [|apply _].
        apply Exists_exists in Hf as (h & Hh & Hne).
        apply list_elem_of_lookup in Hh as [j Hj]. exists j.
        destruct h; [done | by destruct Hne]. }
    destruct Hsome as (j0 & Hj0). apply Hhit in Hj0 as (x0 & Hx0 & Hge0).
    apply Hrel in Hx0 as [Hx01 Hx02].
    exists (where_true hits). split_and!.
    + done.
    + intros i Hi%Hwhere. lia.
    + intros j x Hj Hx Hge. apply elem_of_where_from. exists j.
      split; [|lia]. apply Hhit. exists x. by rewrite Hrel.
    + intros Hall _. exfalso. specialize (Hall j0 x0 Hx01 Hx02).
      eapply Qlt_not_le; [exact Hall | exact Hge0].
    + intros Hall. exfalso. specialize (Hall j0 x0 Hx01 Hx02).
      eapply Qlt_not_le; [exact Hall |].
      eapply Qle_trans; [|exact Hge0]. done.
Qed.

(** ** The feature builder *)

Lemma slice_to_nonneg {A} (s : list A) (b : Z) :
  0 ≤ b → slice_to s b = take (Z.to_nat b) s.
Proof.
  intros Hb. unfold slice_to, slice, clamp. simpl (0 <? 0).
  destruct (Z.ltb_spec b 0) as [|_]; [lia|].
  assert (0 ≤ len s) by (unfold len; lia).
  rewrite (Z.min_l 0) by lia. rewrite Z.sub_0_r, drop_0.
  destruct (Z.le_ge_cases b (len s)).
  - by rewrite Z.min_l by lia.
  - rewrite Z.min_r by lia. unfold len in *.
    rewrite !take_ge by lia. done.
Qed.

Lemma mapM_imap_lookup {A B} (f : nat * A → result B) (l : list A) (ys : list B) :
  mapM f (imap pair l) = Ok ys →
  length ys = length l
  ∧ ∀ (i : nat) y, ys !! i = Some y → ∃ x, l !! i = Some x ∧ f (i, x) = Ok y.
Proof.
  intros H%mapM_Ok. split.
  - apply Forall2_length in H. by rewrite length_imap in H.
  - intros i y Hy. destruct (Forall2_lookup_r _ _ _ _ _ H Hy) as (ix & Hix & Hf).
    rewrite list_lookup_imap in Hix.
    destruct (l !! i) as [x|]; [|done]. simpl in Hix. inversion Hix; subst.
    by exists x.
Qed.


Lemma token_start_le (sequence_ids : list (option Z)) :
  (token_start sequence_ids ≤ length sequence_ids)%nat.
Proof.
  induction sequence_ids as [|s rest IH]; [done|].
  simpl. destruct s as [[|[]|]|]; lia.
Qed.


Lemma window_sentence_ids_before wids seqs wlsi (t : nat) :
  (t < token_start seqs)%nat →
  window_sentence_ids wids seqs wlsi !! t = Some NONE.
Proof.
  intros Ht. unfold window_sentence_ids.
  rewrite lookup_app_l by (by rewrite length_replicate).
  by apply lookup_replicate_2.
Qed.

Lemma window_sentence_ids_from wids seqs wlsi (t : nat) :
  (token_start seqs ≤ t)%nat →
  window_sentence_ids wids seqs wlsi !! t
  = (λ word_idx : option nat,
       match word_idx with
       | Some w => if bool_decide (w < length wlsi)%nat
                   then default (-100) (wlsi !! w) else -100
       | None => -100
       end) <$> wids !! t.
Proof.
  intros Ht. unfold window_sentence_ids.
  rewrite lookup_app_r by (by rewrite length_replicate).
  rewrite length_replicate, list_lookup_fmap, lookup_drop.
  by replace (token_start seqs + (t - token_start seqs))%nat with t by lia.
Qed.

Section FeatureBuilder.

Variable tokenizer : list (list str) → list (list str) → Z → Z → BatchEncoding.


End FeatureBuilder.

(** ** Windows after the first *)

(** C1. On a passage that needs two windows the handler returns the
    selection of the first window only: the last sentence, which lies in
    the second window and is selected there, is in the union over the
    windows and not in the result. *)
Theorem later_windows_ignored :
  let question := py "What?" in
  let doc_sents := Toy.sent_tokenize Toy.long_context in
  let spans := sentence_positions Toy.long_context doc_sents in
  spec_window_count Toy.tokenizer question doc_sents = Ok 2%nat
  ∧ spec_window_predictions Toy.tokenizer Toy.bert Toy.classifier Toy.hidden_size
      Toy.hidden_dropout_prob loaded_model Toy.noise question doc_sents 1 = Ok [61]
  ∧ spec_union_of_windows Toy.tokenizer Toy.bert Toy.classifier Toy.hidden_size
      Toy.hidden_dropout_prob loaded_model Toy.noise question doc_sents = Ok [0; 61]
  ∧ highlights_of doc_sents spans [0; 61]
    = Ok [{| start := 0; end_ := 3 |}; {| start := 1264; end_ := 1270 |}]
  ∧ Toy.highlight question Toy.long_context = Ok [{| start := 0; end_ := 3 |}].
Proof. vm_compute. repeat split. Qed.

(** ** Windows without sentences *)

Lemma agg_item_all_none (max_sentences : Z) (d_model : nat) (sen_ids : list Z)
    (seq_i : list vec) :
  Forall (λ x, x = -100) sen_ids →
  agg_item max_sentences d_model sen_ids seq_i
  = if max_sentences <? 0 then Raise RuntimeError
    else Ok (replicate (Z.to_nat max_sentences) (replicate d_model 0%Q), 0, 0).
Proof.
  intros H. unfold agg_item.
  assert (existsb Datatypes.id ((λ x, negb (x =? -100)) <$> sen_ids) = false) as ->.
  { induction H as [|x l -> _ IH]; [done|]. simpl. exact IH. }
  cbn [negb]. unfold zeros. by destruct (max_sentences <? 0).
Qed.

(** A batch of one window without sentence ids is refused, whatever the
    encoder returned for it. *)
Lemma _get_agg_output_all_none (d_model : nat) (sen_ids : list Z) (seq_i : list vec) :
  sen_ids ≠ [] → Forall (λ x, x = -100) sen_ids →
  _get_agg_output d_model [sen_ids] [seq_i] = Raise RuntimeError.
Proof.
  intros Hne H. unfold _get_agg_output.
  assert (tensor_max (concat [sen_ids]) = Ok (-100)) as ->.
  { simpl. rewrite app_nil_r. destruct H as [|x l -> H]; [done|]. simpl. f_equal.
    clear Hne. induction H as [|y l -> _ IH]; [done|]. simpl. exact IH. }
  cbn. by rewrite agg_item_all_none.
Qed.

Lemma preds_item_no_sentences (p : list Q) (off : Z) :
  preds_item threshold alpha p off 0 = Ok [].
Proof. reflexivity. Qed.

(** C5. A window whose sentence ids are all NONE, alone in its batch, is
    refused by the aggregator with a RuntimeError (the block of zeros is
    asked for with -99 rows), and so are the forward pass and the handler
    on a passage whose only word yields no token; next to a window that
    has a sentence, the same window gets count 0, offset 0, a block of
    zeros, and an empty prediction. *)
Theorem all_none_batch_raises :
  Toy.highlight (py "What?") Toy.blank_context = Raise RuntimeError
  ∧ _get_agg_output 2 [[-100; -100; -100; -100]]
      [[[1; 2]; [3; 4]; [5; 6]; [7; 8]]]%Q = Raise RuntimeError
  ∧ forward Toy.bert Toy.classifier Toy.hidden_size Toy.hidden_dropout_prob
      loaded_model Toy.noise
      [[101; 87; 102; 102]] [[1; 1; 1; 1]] [[0; 0; 0; 1]]
      [[-100; -100; -100; -100]] = Raise RuntimeError
  ∧ forward Toy.bert Toy.classifier Toy.hidden_size Toy.hidden_dropout_prob
      loaded_model Toy.noise
      [[101; 87; 102; 102]; [101; 87; 42; 102]] [[1; 1; 1; 1]; [1; 1; 1; 1]]
      [[0; 0; 0; 1]; [0; 0; 1; 1]]
      [[-100; -100; -100; -100]; [-100; -100; 7; -100]] = Ok [[]; [7]].
Proof. vm_compute. repeat split. Qed.

(** ** Spans placed at the cursor *)

(** The bound on the end of a span rests on the segmenter returning the
    sentences as they stand: with one that rewrites the text the sentence
    is not found, its span is placed at the cursor, and the span ends
    beyond the passage. *)
Lemma highlight_span_beyond_passage :
  ∃ h : Highlight,
    _process_single Toy.quoting_sent_tokenize Toy.tokenizer Toy.bert Toy.classifier
      Toy.hidden_size Toy.hidden_dropout_prob loaded_model Toy.noise
      (py "What?") Toy.quoted_context = Ok [h]
    ∧ ¬ (0 ≤ start h ∧ start h ≤ end_ h ∧ end_ h ≤ len Toy.quoted_context).
Proof.
  exists {| start := 0; end_ := 13 |}. split; [by vm_compute|].
  vm_compute. intros (_ & _ & H). by apply H.
Qed.

(** ** The dropout layer *)

(** In training mode the dropout layer does change the result. *)
Example dropout_matters_in_training :
  _process_single Toy.sent_tokenize Toy.tokenizer Toy.bert Toy.classifier
    Toy.hidden_size Toy.hidden_dropout_prob {| training := true |} Toy.noise
    (py "What?") Toy.dog_context
  ≠ Toy.highlight (py "What?") Toy.dog_context.
Proof. by vm_compute. Qed.

(** ** Instances *)

Lemma selection_rule_witness :
  ∃ sel : list Z,
    preds_item threshold alpha [1 # 100; 8 # 100; 2 # 100]%Q 5 3
    = Ok ((λ i, i + 5) <$> sel)
    ∧ (∀ i, i ∈ sel → 0 ≤ i < 3).
Proof.
  destruct (selection_rule [1 # 100; 8 # 100; 2 # 100]%Q 5 3)
    as (sel & H1 & H2 & _); [lia | by vm_compute |].
  by exists sel.
Defined.

Lemma highlight_span_valid_witness :
  let h := {| start := 11; end_ := 30 |} in
  0 ≤ start h ∧ start h ≤ end_ h ∧ end_ h ≤ len Toy.dog_context
  ∧ ∃ (k : nat) (sent : str),
      Toy.sent_tokenize Toy.dog_context !! k = Some sent
      ∧ sentence_positions Toy.dog_context (Toy.sent_tokenize Toy.dog_context) !! k
        = Some (start h, end_ h)
      ∧ find Toy.dog_context sent
          (cursor_at Toy.dog_context (Toy.sent_tokenize Toy.dog_context) k) ≠ -1
      ∧ slice Toy.dog_context (start h) (end_ h) = sent.
Proof.
  intros h.
  destruct (highlight_span_valid Toy.sent_tokenize Toy.tokenizer Toy.bert
              Toy.classifier Toy.hidden_size Toy.hidden_dropout_prob loaded_model
              Toy.noise (py "What?") Toy.dog_context [h] h)
    as (H0 & H1 & k & sent & Hs & Hp & Hfound & Hcut).
  - vm_compute. reflexivity.
  - apply list_elem_of_here.
  - destruct (Hcut [(0, 10); (11, 30); (32, 49)]) as [Hf Hle].
    { vm_compute. repeat split; congruence. }
    destruct (Hfound Hf) as [_ Hsl].
    split; [exact H0|]. split; [exact H1|]. split; [exact Hle|].
    exists k, sent. split; [exact Hs|]. split; [exact Hp|]. split; [exact Hf|exact Hsl].
Defined.

Lemma highlights_ascending_disjoint_witness :
  let context := py "*A. b c. *D *e." in
  let doc_sents := Toy.sent_tokenize context in
  let spans := sentence_positions context doc_sents in
  let h := {| start := 0; end_ := 3 |} in
  let h' := {| start := 9; end_ := 15 |} in
  Toy.highlight (py "What?") context = Ok [h; h']
  ∧ (∃ idxs : list Z,
       StronglySorted Z.lt idxs ∧ Forall (in_range doc_sents) idxs
       ∧ [h; h'] = highlight_of spans <$> idxs)
  ∧ end_ h ≤ start h'
  ∧ (∃ shs,
       SemanticHighlighterHandler_process_single Toy.sent_tokenize Toy.tokenizer
         Toy.bert Toy.classifier Toy.hidden_size Toy.hidden_dropout_prob
         loaded_model Toy.noise (py "What?") context = Ok shs
       ∧ sh_position <$> shs = [0; 2]
       ∧ StronglySorted Z.lt (sh_position <$> shs)
       ∧ ∀ sh sh', shs !! 0%nat = Some sh → shs !! 1%nat = Some sh' →
           sh_end sh ≤ sh_start sh')
  ∧ spans = [(0, 3); (4, 8); (9, 15)]
  ∧ (3 ≤ 4 ∧ 0 ≤ 4) ∧ (8 ≤ 9 ∧ 4 ≤ 9) ∧ (3 ≤ 9 ∧ 0 ≤ 9).
Proof.
  intros context doc_sents spans h h'.
  destruct (highlights_ascending_disjoint Toy.sent_tokenize Toy.tokenizer Toy.bert
              Toy.classifier Toy.hidden_size Toy.hidden_dropout_prob loaded_model
              Toy.noise (py "What?") context) as (H1 & H2 & H3).
  assert (E : Toy.highlight (py "What?") context = Ok [h; h'])
    by (vm_compute; reflexivity).
  destruct (H1 _ E) as [Hidx Hpair].
  split; [exact E|]. split; [exact Hidx|].
  split; [apply (Hpair 0%nat 1%nat h h'); [lia | reflexivity | reflexivity]|].
  split.
  { assert (E2 : SemanticHighlighterHandler_process_single Toy.sent_tokenize
                   Toy.tokenizer Toy.bert Toy.classifier Toy.hidden_size
                   Toy.hidden_dropout_prob loaded_model Toy.noise (py "What?") context
                 = Ok [{| sh_text := py "*A."; sh_start := 0; sh_end := 3;
                          sh_position := 0; sh_score := 1 |};
                       {| sh_text := py "*D *e."; sh_start := 9; sh_end := 15;
                          sh_position := 2; sh_score := 1 |}])
      by (vm_compute; reflexivity).
    destruct (H2 _ E2) as [Hpos Hpair2].
    eexists. split; [exact E2|]. split; [reflexivity|]. split; [exact Hpos|].
    intros sh sh'. apply (Hpair2 0%nat 1%nat). lia. }
  split; [vm_compute; reflexivity|].
  split; [apply (H3 0%nat 1%nat 0 3 4 8); [lia | reflexivity | reflexivity]|].
  split; [apply (H3 1%nat 2%nat 4 8 9 15); [lia | reflexivity | reflexivity]|].
  apply (H3 0%nat 2%nat 0 3 9 15); [lia | reflexivity | reflexivity].
Defined.

Lemma empty_passage_no_highlights_witness :
  Toy.highlight (py "What?") [] = Ok []
  ∧ SemanticHighlighterHandler_process_single Toy.sent_tokenize Toy.tokenizer Toy.bert
      Toy.classifier Toy.hidden_size Toy.hidden_dropout_prob loaded_model Toy.noise
      (py "What?") [] = Ok []
  ∧ Toy.highlight (py "What?") [] = Ok [].
Proof.
  apply (empty_passage_no_highlights Toy.sent_tokenize Toy.tokenizer Toy.bert
           Toy.classifier Toy.hidden_size Toy.hidden_dropout_prob).
  - reflexivity.
  - by left.
Defined.

Lemma span_length_is_sentence_length_witness :
  30 - 11 = len (py "*A *dog *ran *fast.").
Proof.
  apply (proj1 (span_length_is_sentence_length Toy.sent_tokenize Toy.tokenizer Toy.bert
                  Toy.classifier Toy.hidden_size Toy.hidden_dropout_prob loaded_model
                  Toy.noise (py "What?") Toy.dog_context) 1%nat);
    vm_compute; reflexivity.
Defined.


Lemma out_of_range_indices_dropped_witness :
  highlights_of [py "A."; py "B."] (sentence_positions (py "A. B.") [py "A."; py "B."])
    [-1; 1; 2]
  = Ok [{| start := 3; end_ := 5 |}].
Proof.
  rewrite (proj1 (out_of_range_indices_dropped (py "A. B.") [py "A."; py "B."]
                    [-1; 1; 2])).
  vm_compute. reflexivity.
Defined.

(** * Further properties *)

(** ** Words and their sentence ids *)

Lemma prepare_words_invariants (sid : Z) (doc_sents : list str) :
  let '(words, sentence_ids) := prepare_words sid doc_sents in
  length words = length sentence_ids
  ∧ Forall (λ i, sid ≤ i < sid + len doc_sents) sentence_ids
  ∧ StronglySorted Z.le sentence_ids
  ∧ ∀ (j : nat) w i, words !! j = Some w → sentence_ids !! j = Some i →
      ∃ sent, doc_sents !! Z.to_nat (i - sid) = Some sent ∧ w ∈ split sent.
Proof.
  revert sid. induction doc_sents as [|sent rest IH]; intros sid; simpl.
  - split_and!; [done | constructor | constructor | done].
  - specialize (IH (sid + 1)). destruct (prepare_words (sid + 1) rest) as [words ids].
    destruct IH as (Hl & Hr & Hs & Hw).
    assert (Hlen : len (sent :: rest) = 1 + len rest) by (unfold len; simpl; lia).
    assert (0 ≤ len rest) by (unfold len; lia).
    split_and!.
    + rewrite !length_app, length_replicate. lia.
    + apply Forall_app. split.
      * apply Forall_forall. intros i [-> _]%elem_of_replicate. lia.
      * eapply Forall_impl; [exact Hr|]. simpl. intros i ?. lia.
    + induction (length (split sent)) as [|n IHn]; simpl; [done|].
      constructor; [done|]. apply Forall_app. split.
      * apply Forall_forall. intros i [-> _]%elem_of_replicate. lia.
      * eapply Forall_impl; [exact Hr|]. simpl. intros i ?. lia.
    + intros j w i Hj Hi.
      destruct (decide (j < length (split sent))%nat) as [Hlt|Hge].
      * rewrite lookup_app_l in Hj by done.
        rewrite lookup_app_l in Hi by (by rewrite length_replicate).
        apply lookup_replicate in Hi as [-> _].
        exists sent. rewrite Z.sub_diag. split; [done|].
        by eapply list_elem_of_lookup_2.
      * rewrite lookup_app_r in Hj by lia.
        rewrite lookup_app_r in Hi by (rewrite length_replicate; lia).
        rewrite length_replicate in Hi.
        destruct (Hw _ _ _ Hj Hi) as (sent' & Hs' & Hin).
        eapply Forall_lookup_1 in Hr; [|exact Hi]. simpl in Hr.
        exists sent'. split; [|done].
        replace (Z.to_nat (i - sid)) with (S (Z.to_nat (i - (sid + 1)))) by lia.
        done.
Qed.

(** X2. The word sequence and the sentence-id sequence built from the
    sentences have the same length; the ids are valid sentence indices (so
    never the sentinel) in non-decreasing order; and every word carries the
    index of a sentence whose whitespace split contains it. *)
Theorem words_tagged_with_their_sentence (doc_sents : list str) words sentence_ids :
  prepare_words 0 doc_sents = (words, sentence_ids) →
  length words = length sentence_ids
  ∧ Forall (in_range doc_sents) sentence_ids
  ∧ StronglySorted Z.le sentence_ids
  ∧ ∀ (j : nat) w i, words !! j = Some w → sentence_ids !! j = Some i →
      ∃ sent, doc_sents !! Z.to_nat i = Some sent ∧ w ∈ split sent.
Proof.
  intros E. pose proof (prepare_words_invariants 0 doc_sents) as H. rewrite E in H.
  destruct H as (H1 & H2 & H3 & H4). split_and!; [done | | done |].
  - eapply Forall_impl; [exact H2|]. unfold in_range. simpl. intros i ?. lia.
  - intros j w i Hj Hi. destruct (H4 j w i Hj Hi) as (sent & Hs & Hin).
    exists sent. by rewrite Z.sub_0_r in Hs.
Qed.

Lemma words_tagged_with_their_sentence_witness :
  length [py "A"; py "cat."; py "Dogs."] = length [0; 0; 1]
  ∧ Forall (in_range [py "A cat."; py "Dogs."]) [0; 0; 1]
  ∧ StronglySorted Z.le [0; 0; 1]
  ∧ ∀ (j : nat) w i, [py "A"; py "cat."; py "Dogs."] !! j = Some w →
      [0; 0; 1] !! j = Some i →
      ∃ sent, [py "A cat."; py "Dogs."] !! Z.to_nat i = Some sent ∧ w ∈ split sent.
Proof.
  apply (words_tagged_with_their_sentence [py "A cat."; py "Dogs."]).
  vm_compute. reflexivity.
Defined.

Section PipelineFurther.

Variable sent_tokenize : str → list str.
Variable tokenizer : list (list str) → list (list str) → Z → Z → BatchEncoding.
Variable bert : list (list Z) → list (list Z) → list (list Z) → list (list vec).
Variable classifier : vec → Q.
Variable hidden_size : nat.
Variable hidden_dropout_prob : Q.

Abbreviation first_window_predictions :=
  (predictions tokenizer bert classifier hidden_size hidden_dropout_prob).
Abbreviation highlight :=
  (_process_single sent_tokenize tokenizer bert classifier hidden_size
     hidden_dropout_prob).
Abbreviation scored_highlight :=
  (SemanticHighlighterHandler_process_single sent_tokenize tokenizer bert classifier
     hidden_size hidden_dropout_prob).

(** X1. When the segmenter returns the sentences as they stand in the
    passage, one after the other, every sentence is found by the substring
    search, and every highlight lies within the passage and is the exact
    text of a segmented sentence. *)
Theorem cut_sentences_give_exact_spans model noise question context true_spans hs h :
  cut_at context 0 (sent_tokenize context) true_spans →
  highlight model noise question context = Ok hs → h ∈ hs →
  0 ≤ start h ∧ start h ≤ end_ h ∧ end_ h ≤ len context
  ∧ ∃ k : nat, sent_tokenize context !! k = Some (slice context (start h) (end_ h))
               ∧ sentence_positions context (sent_tokenize context) !! k
                 = Some (start h, end_ h).
Proof.
  intros Hcut H Hh. apply _process_single_resolved in H as (idxs & _ & Hr & ->).
  apply list_elem_of_fmap in Hh as (i & -> & Hi).
  eapply Forall_forall in Hr; [|exact Hi].
  pose proof (sentence_positions_from_cut context 0 _ _ (Z.le_refl 0) Hcut) as HF.
  fold (sentence_positions context (sent_tokenize context)) in HF.
  destruct (in_range_lookup _ (sent_tokenize context) i eq_refl Hr) as [sent Hs].
  destruct (Forall2_lookup_l _ _ _ _ _ HF Hs) as ([s e] & Hp & H0 & He & Hsl).
  pose proof (sentence_positions_from_chained context 0 (sent_tokenize context)) as Hc.
  destruct (chained_lookup _ _ _ _ _ Hc Hp) as [_ Hse].
  unfold highlight_of, span_of. rewrite Hp. simpl.
  split_and!; [done | done | done |]. exists (Z.to_nat i). by rewrite Hsl.
Qed.

Lemma _process_single_start_end model noise question context :
  highlight model noise question context
  = match scored_highlight model noise question context with
    | Ok shs => Ok (start_end <$> shs)
    | Raise e => Raise e
    end.
Proof.
  unfold _process_single, SemanticHighlighterHandler_process_single.
  destruct (sent_tokenize context) as [|sent rest] eqn:Ed; [done|]. rewrite <- Ed.
  destruct (first_window_predictions model noise question (sent_tokenize context))
    as [[|preds0 preds]|e]; cbn [mbind result_bind]; [done | | done].
  destruct (0 <? len preds0); [|done].
  rewrite highlights_of_resolved, scored_highlights_of_resolved
    by apply length_sentence_positions_from.
  f_equal. rewrite <- list_fmap_compose. by apply list_fmap_ext.
Qed.

(** X7. The two handlers agree: the highlights of
    [semantic_highlighting_handler.py] are the start and end of the
    highlights of [torchserve_handler.py], in the same order, and the one
    raises exactly when the other does, with the same exception. *)
Theorem handlers_agree model noise question context :
  highlight model noise question context
  = match scored_highlight model noise question context with
    | Ok shs => Ok (start_end <$> shs)
    | Raise e => Raise e
    end.
Proof. apply _process_single_start_end. Qed.

End PipelineFurther.

Lemma cut_sentences_give_exact_spans_witness :
  let h := {| start := 11; end_ := 30 |} in
  0 ≤ start h ∧ start h ≤ end_ h ∧ end_ h ≤ len Toy.dog_context
  ∧ ∃ k : nat,
      Toy.sent_tokenize Toy.dog_context !! k
      = Some (slice Toy.dog_context (start h) (end_ h))
      ∧ sentence_positions Toy.dog_context (Toy.sent_tokenize Toy.dog_context) !! k
        = Some (start h, end_ h).
Proof.
  intros h.
  apply (cut_sentences_give_exact_spans Toy.sent_tokenize Toy.tokenizer Toy.bert
           Toy.classifier Toy.hidden_size Toy.hidden_dropout_prob loaded_model
           Toy.noise (py "What did the dog do?") Toy.dog_context
           [(0, 10); (11, 30); (32, 49)] [h] h).
  - vm_compute. repeat split; congruence.
  - vm_compute. reflexivity.
  - apply list_elem_of_here.
Defined.

(** ** The aggregator *)

Lemma foldl_Zmin_spec x l :
  foldl Z.min x l ∈ x :: l ∧ Forall (λ y, foldl Z.min x l ≤ y) (x :: l).
Proof.
  revert x. induction l as [|y l IH]; intros x; simpl.
  - split; [by left | by repeat constructor].
  - destruct (IH (Z.min x y)) as [Hin Hall].
    apply Forall_cons in Hall as [H1 H2]. split.
    + apply elem_of_cons in Hin as [-> | Hin]; [|by do 2 right].
      destruct (Z.min_spec x y) as [[_ ->] | [_ ->]]; [by left | right; by left].
    + repeat constructor; [lia | lia | done].
Qed.

Lemma foldl_Zmax_spec x l :
  foldl Z.max x l ∈ x :: l ∧ Forall (λ y, y ≤ foldl Z.max x l) (x :: l).
Proof.
  revert x. induction l as [|y l IH]; intros x; simpl.
  - split; [by left | by repeat constructor].
  - destruct (IH (Z.max x y)) as [Hin Hall].
    apply Forall_cons in Hall as [H1 H2]. split.
    + apply elem_of_cons in Hin as [-> | Hin]; [|by do 2 right].
      destruct (Z.max_spec x y) as [[_ ->] | [_ ->]]; [right; by left | by left].
    + repeat constructor; [lia | lia | done].
Qed.

Lemma tensor_min_spec (t : list Z) :
  t ≠ [] → ∃ m, tensor_min t = Ok m ∧ m ∈ t ∧ Forall (λ y, m ≤ y) t.
Proof.
  destruct t as [|x t]; [done|]. intros _. exists (foldl Z.min x t).
  split; [done | apply foldl_Zmin_spec].
Qed.

Lemma tensor_max_spec (t : list Z) :
  t ≠ [] → ∃ m, tensor_max t = Ok m ∧ m ∈ t ∧ Forall (λ y, y ≤ m) t.
Proof.
  destruct t as [|x t]; [done|]. intros _. exists (foldl Z.max x t).
  split; [done | apply foldl_Zmax_spec].
Qed.

Lemma masked_present (sen_ids : list Z) :
  masked ((λ x, negb (x =? -100)) <$> sen_ids) sen_ids = Ok (present_ids sen_ids).
Proof.
  unfold masked. rewrite bool_decide_eq_true_2 by by rewrite length_fmap.
  f_equal. unfold present_ids. induction sen_ids as [|x l IH]; [done|].
  cbn [fmap list_fmap zip zip_with omap list_omap]. rewrite filter_cons.
  destruct (decide (x ≠ -100)) as [Hne|He].
  - rewrite (proj2 (Z.eqb_neq x (-100)) Hne). simpl. by rewrite IH.
  - assert (x = -100) as -> by lia. exact IH.
Qed.

Lemma masked_rebased (sen_ids : list Z) (offset : Z) :
  let mask := (λ x, negb (x =? -100)) <$> sen_ids in
  masked mask (zip_with (λ (m : bool) x, if m then x - offset else x) mask sen_ids)
  = Ok ((λ x, x - offset) <$> present_ids sen_ids).
Proof.
  unfold masked.
  rewrite bool_decide_eq_true_2 by (rewrite length_zip_with, length_fmap; lia).
  f_equal. unfold present_ids. induction sen_ids as [|x l IH]; [done|].
  cbn [fmap list_fmap zip zip_with omap list_omap]. rewrite filter_cons.
  destruct (decide (x ≠ -100)) as [Hne|He].
  - rewrite (proj2 (Z.eqb_neq x (-100)) Hne). simpl. f_equal. exact IH.
  - assert (x = -100) as -> by lia. exact IH.
Qed.

Lemma mask_any (sen_ids : list Z) :
  existsb Datatypes.id ((λ x, negb (x =? -100)) <$> sen_ids) = false
  ↔ present_ids sen_ids = [].
Proof.
  unfold present_ids. induction sen_ids as [|x l IH]; [done|].
  cbn [fmap list_fmap existsb]. rewrite filter_cons.
  destruct (decide (x ≠ -100)) as [Hne|He].
  - rewrite (proj2 (Z.eqb_neq x (-100)) Hne). by simpl.
  - assert (x = -100) as -> by lia. exact IH.
Qed.

Lemma present_ids_nil (sen_ids : list Z) :
  present_ids sen_ids = [] ↔ Forall (λ x, x = -100) sen_ids.
Proof.
  unfold present_ids. induction sen_ids as [|x l IH]; [by split; [constructor|]|].
  rewrite filter_cons. destruct (decide (x ≠ -100)) as [Hne|He].
  - split; [done | by inversion 1].
  - rewrite IH. assert (x = -100) by lia. split; [by constructor | by inversion 1].
Qed.

Lemma length_zeros rows d_model block :
  zeros rows d_model = Ok block →
  0 ≤ rows ∧ block = replicate (Z.to_nat rows) (replicate d_model 0%Q).
Proof.
  unfold zeros. destruct (Z.ltb_spec rows 0); [done|]. intros [= <-]. done.
Qed.

Lemma mapM_total {A B} (f : A → result B) (l : list A) :
  (∀ x, x ∈ l → ∃ y, f x = Ok y) → ∃ ys, mapM f l = Ok ys.
Proof.
  induction l as [|x l IH]; intros H; [by exists []|].
  destruct (H x) as [y Hy]; [by left|].
  destruct IH as [ys Hys]; [intros x' Hx'; apply H; by right|].
  exists (y :: ys). cbn [mapM]. by rewrite Hy, Hys.
Qed.

(** A window with a sentence id, when the aggregator returns for it: the
    offset is the least id, the count is the span of the ids, and the
    block has a row for every position, padded with zero rows to
    [max_sentences]. *)
Lemma agg_item_present_Ok (max_sentences : Z) (d_model : nat) (sen_ids : list Z)
    (seq_i : list vec) block off ns :
  present_ids sen_ids ≠ [] →
  agg_item max_sentences d_model sen_ids seq_i = Ok (block, off, ns) →
  ∃ mx,
    off ∈ present_ids sen_ids ∧ mx ∈ present_ids sen_ids
    ∧ Forall (λ x, off ≤ x ≤ mx) (present_ids sen_ids)
    ∧ ns = mx - off + 1
    ∧ length block = Z.to_nat (Z.max ns max_sentences)
    ∧ ∀ (r : nat) v, (Z.to_nat ns ≤ r)%nat → block !! r = Some v →
        v = replicate d_model 0%Q.
Proof.
  intros Hne. unfold agg_item.
  destruct (existsb _ _) eqn:Eany; [|by apply mask_any in Eany]. cbn [negb].
  rewrite masked_present. cbn [mbind result_bind].
  destruct (tensor_min_spec _ Hne) as (mn & -> & Hmn & Hmin). cbn [mbind result_bind].
  rewrite masked_rebased. cbn [mbind result_bind].
  destruct (tensor_max_spec ((λ x, x - mn) <$> present_ids sen_ids)) as (m' & -> & Hm' & Hmax).
  { by destruct (present_ids sen_ids). }
  cbn [mbind result_bind].
  apply list_elem_of_fmap in Hm' as (mx & -> & Hmx).
  assert (Hall : Forall (λ x, mn ≤ x ≤ mx) (present_ids sen_ids)).
  { apply Forall_forall. intros x Hx. split.
    - eapply Forall_forall in Hmin; [|exact Hx]. done.
    - assert (x - mn ∈ (λ x, x - mn) <$> present_ids sen_ids) as Hx'
        by (apply list_elem_of_fmap; by exists x).
      eapply Forall_forall in Hmax; [|exact Hx']. simpl in Hmax. lia. }
  assert (mn ≤ mx) by (eapply Forall_forall in Hall; [|exact Hmn]; simpl in Hall; lia).
  intros Hret. apply bind_Ok in Hret as (out & Hout & Hret).
  apply mapM_Ok, Forall2_length in Hout. rewrite length_seqZ in Hout.
  destruct (Z.ltb_spec 0 (max_sentences - (mx - mn + 1))) as [Hpad|Hpad].
  - unfold zeros in Hret. destruct (Z.ltb_spec (max_sentences - (mx - mn + 1)) 0); [lia|].
    cbn [mbind result_bind] in Hret. inversion Hret; subst block off ns.
    exists mx. split_and!; try done.
    + rewrite length_app, length_replicate. lia.
    + intros r v Hr Hv. assert (length out ≤ r)%nat as Hle by lia.
      rewrite (lookup_app_r out) in Hv by exact Hle.
      by apply lookup_replicate in Hv as [-> _].
  - cbn [mbind result_bind] in Hret. inversion Hret; subst block off ns.
    exists mx. split_and!; try done.
    + rewrite length_app. simpl. lia.
    + intros r v Hr Hv. assert (length out ≤ r)%nat as Hle by lia.
      rewrite (lookup_app_r out) in Hv by exact Hle. by destruct (r - length out)%nat.
Qed.

(** With one token vector for every sentence id of the window, the
    aggregator raises nothing. *)
Lemma agg_item_total (max_sentences : Z) (d_model : nat) (sen_ids : list Z)
    (seq_i : list vec) :
  present_ids sen_ids ≠ [] → length seq_i = length sen_ids →
  ∃ y, agg_item max_sentences d_model sen_ids seq_i = Ok y.
Proof.
  intros Hne Hlen. unfold agg_item.
  destruct (existsb _ _) eqn:Eany; [|by apply mask_any in Eany]. cbn [negb].
  rewrite masked_present. cbn [mbind result_bind].
  destruct (tensor_min_spec _ Hne) as (mn & -> & Hmn & Hmin). cbn [mbind result_bind].
  rewrite masked_rebased. cbn [mbind result_bind].
  destruct (tensor_max_spec ((λ x, x - mn) <$> present_ids sen_ids)) as (m' & -> & Hm' & Hmax).
  { by destruct (present_ids sen_ids). }
  cbn [mbind result_bind].
  match goal with
  | |- context [mapM ?f ?l] => destruct (mapM_total f l) as [out ->]
  end.
  { intros j _. cbv zeta. unfold masked. rewrite bool_decide_eq_true_2.
    - cbn [mbind result_bind].
      match goal with |- context [if ?b then _ else _] => destruct b end; by eexists.
    - rewrite !length_zip_with, length_fmap. lia. }
  cbn [mbind result_bind].
  destruct (Z.ltb_spec 0 (max_sentences - (m' + 1))) as [Hpad|Hpad].
  - unfold zeros. destruct (Z.ltb_spec (max_sentences - (m' + 1)) 0); [lia|].
    by eexists.
  - by eexists.
Qed.

(** What [agg_item] returns, read back. *)
Lemma agg_item_Ok (max_sentences : Z) (d_model : nat) (sen_ids : list Z)
    (seq_i : list vec) block off ns :
  agg_item max_sentences d_model sen_ids seq_i = Ok (block, off, ns) →
  (present_ids sen_ids = [] ∧ off = 0 ∧ ns = 0 ∧ 0 ≤ max_sentences
   ∧ block = replicate (Z.to_nat max_sentences) (replicate d_model 0%Q))
  ∨ (∃ mx, off ∈ present_ids sen_ids ∧ mx ∈ present_ids sen_ids
           ∧ Forall (λ x, off ≤ x ≤ mx) (present_ids sen_ids)
           ∧ ns = mx - off + 1
           ∧ length block = Z.to_nat (Z.max ns max_sentences)).
Proof.
  intros H. destruct (decide (present_ids sen_ids = [])) as [He|Hne].
  - left. rewrite agg_item_all_none in H by by apply present_ids_nil.
    destruct (Z.ltb_spec max_sentences 0); [done|]. inversion H; subst. done.
  - right. destruct (agg_item_present_Ok _ _ _ _ _ _ _ Hne H)
      as (mx & H1 & H2 & H3 & H4 & H5 & _).
    by exists mx.
Qed.

Lemma elem_of_concat {A} (ls : list (list A)) (x : A) :
  x ∈ concat ls ↔ ∃ l, l ∈ ls ∧ x ∈ l.
Proof.
  induction ls as [|l ls IH]; simpl.
  - split; [by intros ?%elem_of_nil | by intros (l & ?%elem_of_nil & _)].
  - rewrite elem_of_app, IH. split.
    + intros [H | (l' & H1 & H2)]; [exists l; split; [by left | done]|].
      exists l'. split; [by right | done].
    + intros (l' & [-> | H1]%elem_of_cons & H2); [by left | right; by exists l'].
Qed.

Lemma elem_of_present_ids (sen_ids : list Z) x :
  x ∈ present_ids sen_ids ↔ x ≠ -100 ∧ x ∈ sen_ids.
Proof. unfold present_ids. by rewrite list_elem_of_filter. Qed.

(** The aggregator on a well-formed batch. *)
Lemma _get_agg_output_well_formed (d_model : nat) (ids : list (list Z))
    (seq_out : list (list vec)) :
  well_formed_ids ids → token_aligned ids seq_out →
  ∃ items m,
    tensor_max (concat ids) = Ok m ∧ 0 ≤ m
    ∧ _get_agg_output d_model ids seq_out
      = Ok (fst ∘ fst <$> items, snd ∘ fst <$> items, snd <$> items)
    ∧ Forall2 (λ sen_ids '(block, off, ns),
         length block = Z.to_nat (m + 1) ∧ 0 ≤ ns ≤ m + 1
         ∧ (present_ids sen_ids = [] → off = 0 ∧ ns = 0)
         ∧ (present_ids sen_ids ≠ [] →
            off ∈ present_ids sen_ids ∧ off + ns - 1 ∈ present_ids sen_ids
            ∧ Forall (λ x, off ≤ x < off + ns) (present_ids sen_ids))
         ∧ ∀ (r : nat) v, (Z.to_nat ns ≤ r)%nat → block !! r = Some v →
             v = replicate d_model 0%Q) ids items.
Proof.
  intros [Hwf (w0 & x0 & Hw0 & Hx0 & Hne0)] Hlen. unfold _get_agg_output.
  assert (Hx0c : x0 ∈ concat ids) by (apply elem_of_concat; by exists w0).
  destruct (tensor_max_spec (concat ids)) as (m & Em & Hm & Hmax).
  { intros E. rewrite E in Hx0c. by apply elem_of_nil in Hx0c. }
  assert (Hm0 : 0 ≤ m).
  { eapply Forall_forall in Hmax; [|exact Hx0c]. simpl in Hmax.
    eapply Forall_forall in Hwf; [|exact Hw0].
    eapply Forall_forall in Hwf; [|exact Hx0]. simpl in Hwf. lia. }
  rewrite Em. cbn [mbind result_bind].
  set (f := λ '(i, sen_ids), index seq_out i ≫= λ seq_i,
              agg_item (m + 1) d_model sen_ids seq_i).
  assert (Hitem : ∀ (i : nat) sen_ids, ids !! i = Some sen_ids →
    ∃ block off ns, f (i, sen_ids) = Ok (block, off, ns)
      ∧ length block = Z.to_nat (m + 1) ∧ 0 ≤ ns ≤ m + 1
      ∧ (present_ids sen_ids = [] → off = 0 ∧ ns = 0)
      ∧ (present_ids sen_ids ≠ [] →
         off ∈ present_ids sen_ids ∧ off + ns - 1 ∈ present_ids sen_ids
         ∧ Forall (λ x, off ≤ x < off + ns) (present_ids sen_ids))
      ∧ ∀ (r : nat) v, (Z.to_nat ns ≤ r)%nat → block !! r = Some v →
          v = replicate d_model 0%Q).
  { intros i sen_ids Hi. unfold f.
    destruct (Forall2_lookup_l _ _ _ _ _ Hlen Hi) as (seq_i & Es & Hal).
    unfold index. rewrite Es. cbn [mbind result_bind].
    assert (Hsen : Forall (λ x, x = -100 ∨ 0 ≤ x) sen_ids).
    { eapply Forall_forall in Hwf; [done|]. by eapply list_elem_of_lookup_2. }
    destruct (decide (present_ids sen_ids = [])) as [He|Hne].
    - rewrite agg_item_all_none by by apply present_ids_nil.
      destruct (Z.ltb_spec (m + 1) 0); [lia|].
      eexists _, 0, 0. split_and!; try done; try lia.
      + by rewrite length_replicate.
      + intros r v _ Hv. by apply lookup_replicate in Hv as [-> _].
    - destruct (agg_item_total (m + 1) d_model sen_ids seq_i Hne Hal)
        as ([[block mn] ns] & E).
      destruct (agg_item_present_Ok _ _ _ _ _ _ _ Hne E)
        as (mx & H1 & H2 & H3 & -> & H4 & H5).
      assert (0 ≤ mn).
      { apply elem_of_present_ids in H1 as [? H1].
        eapply Forall_forall in Hsen; [|exact H1]. simpl in Hsen. lia. }
      assert (mx ≤ m).
      { apply elem_of_present_ids in H2 as [? H2].
        eapply Forall_forall in Hmax; [done|].
        apply elem_of_concat. exists sen_ids. split; [|done].
        by eapply list_elem_of_lookup_2. }
      assert (mn ≤ mx)
        by (eapply Forall_forall in H3; [|exact H1]; simpl in H3; lia).
      exists block, mn, (mx - mn + 1). split_and!; try done; try lia.
      + intros _. split_and!; [done | |].
        * by replace (mn + (mx - mn + 1) - 1) with mx by lia.
        * eapply Forall_impl; [exact H3|]. simpl. intros x ?. lia. }
  destruct (mapM_total f (imap pair ids)) as [items Hitems].
  { intros [i sen_ids] Hin. apply list_elem_of_lookup in Hin as [j Hj].
    rewrite list_lookup_imap in Hj. destruct (ids !! j) as [s|] eqn:Ej; [|done].
    simpl in Hj. inversion Hj; subst.
    destruct (Hitem _ _ Ej) as (block & off & ns & E & _). by eexists. }
  fold f. rewrite Hitems. cbn [mbind result_bind].
  assert (HF : Forall2 (λ sen_ids '(block, off, ns),
         length block = Z.to_nat (m + 1) ∧ 0 ≤ ns ≤ m + 1
         ∧ (present_ids sen_ids = [] → off = 0 ∧ ns = 0)
         ∧ (present_ids sen_ids ≠ [] →
            off ∈ present_ids sen_ids ∧ off + ns - 1 ∈ present_ids sen_ids
            ∧ Forall (λ x, off ≤ x < off + ns) (present_ids sen_ids))
         ∧ ∀ (r : nat) v, (Z.to_nat ns ≤ r)%nat → block !! r = Some v →
             v = replicate d_model 0%Q) ids items).
  { apply mapM_imap_lookup in Hitems as [Hl Hlook].
    apply Forall2_same_length_lookup_2; [done|].
    intros i sen_ids [[block off] ns] Hi Hit.
    destruct (Hlook _ _ Hit) as (s & Hs & Hf).
    rewrite Hi in Hs. inversion Hs; subst s.
    destruct (Hitem _ _ Hi) as (block' & off' & ns' & E & H). rewrite E in Hf.
    by inversion Hf; subst. }
  exists items, m. split_and!; [done | done | | done].
  assert (stack (fst ∘ fst <$> items) = Ok (fst ∘ fst <$> items)) as ->; [|done].
  unfold stack. destruct items as [|[[b0 o0] n0] items'] eqn:E0.
  { apply Forall2_length in HF. apply list_elem_of_lookup in Hw0 as [j Hj].
    apply lookup_lt_Some in Hj. simpl in HF. lia. }
  rewrite <- E0 in *. cbn [fmap list_fmap].
  assert (forallb (λ b' : list vec, bool_decide (length b' = length b0))
            (fst ∘ fst <$> items) = true) as Hall.
  { apply forallb_forall. intros b Hb%list_elem_of_In.
    apply list_elem_of_fmap in Hb as ([[b' o'] n'] & -> & Hit).
    apply bool_decide_eq_true. simpl.
    assert (Hlen' : ∀ it, it ∈ items → length it.1.1 = Z.to_nat (m + 1)).
    { intros [[b1 o1] n1] Hin. apply list_elem_of_lookup in Hin as [j Hj].
      destruct (Forall2_lookup_r _ _ _ _ _ HF Hj) as (s & _ & Hs & _). done. }
    pose proof (Hlen' _ Hit) as Hb'. rewrite E0 in Hlen'.
    specialize (Hlen' (b0, o0, n0)). simpl in Hb', Hlen'.
    rewrite Hb', Hlen'; [done | by left]. }
  rewrite E0 in Hall |- *. cbn [fmap list_fmap] in Hall |- *.
  change ((fst ∘ fst) (b0, o0, n0)) with b0 in *. by rewrite Hall.
Qed.

(** ** The selector within the forward pass *)

Lemma preds_item_bounds th al (p : list Q) (off ns : Z) l :
  0 ≤ ns → preds_item th al p off ns = Ok l →
  Forall (λ g, off ≤ g < off + ns) l.
Proof.
  intros Hns. unfold preds_item. destruct (Z.eqb_spec ns 0); [intros [= <-]; constructor|].
  rewrite slice_to_nonneg by done.
  set (rel := take (Z.to_nat ns) p). set (hits := _ <$> rel).
  assert (Hl : (length hits ≤ Z.to_nat ns)%nat).
  { unfold hits, rel. rewrite length_fmap, length_take. lia. }
  intros H. apply bind_Ok in H as (hits' & Hh & [= <-]).
  assert (Hl' : length hits' = length hits).
  { destruct (tensor_sum hits =? 0); [|by inversion Hh].
    apply bind_Ok in Hh as (mx & _ & Hh).
    destruct (Qle_bool al mx); inversion Hh; [by rewrite length_insert | done]. }
  apply Forall_forall. intros g (i & -> & Hi)%list_elem_of_fmap.
  apply elem_of_where_from in Hi as (k & Hk%lookup_lt_Some & ->). lia.
Qed.

Lemma preds_item_total th al (p : list Q) (off ns : Z) :
  0 ≤ ns → ns ≤ len p → ∃ l, preds_item th al p off ns = Ok l.
Proof.
  intros Hns Hlen. unfold preds_item. destruct (Z.eqb_spec ns 0); [by eexists|].
  rewrite slice_to_nonneg by done.
  destruct (take (Z.to_nat ns) p) as [|r0 rel] eqn:E.
  { apply (f_equal length) in E. rewrite length_take in E. unfold len in *.
    simpl in E. lia. }
  destruct (tensor_sum _ =? 0); [|by eexists].
  cbn [tensor_maxQ mbind result_bind]. destruct (Qle_bool al _); by eexists.
Qed.

Lemma length_dropout p self noise (x : list (list vec)) :
  length (dropout p self noise x) = length x.
Proof. unfold dropout. destruct (training self); [by rewrite length_imap | done]. Qed.

(** The dropout layer keeps the shape of its input. *)
Lemma token_aligned_dropout p self noise (ids : list (list Z)) (x : list (list vec)) :
  token_aligned ids x → token_aligned ids (dropout p self noise x).
Proof.
  unfold dropout. destruct (training self); [|done]. intros H.
  apply Forall2_same_length_lookup_2.
  - rewrite length_imap. by eapply Forall2_length.
  - intros i sen_ids w' Hi Hw. rewrite list_lookup_imap in Hw.
    apply fmap_Some in Hw as (w & Ex & ->).
    rewrite length_imap. by eapply (Forall2_lookup_lr _ _ _ _ _ _ H Hi Ex).
Qed.

Lemma zip_items (classifier : vec → Q) (items : list (list vec * Z * Z)) :
  zip (zip ((λ block : list vec, classifier <$> block) <$> (fst ∘ fst <$> items))
           (snd ∘ fst <$> items)) (snd <$> items)
  = (λ it : list vec * Z * Z, (classifier <$> it.1.1, it.1.2, it.2)) <$> items.
Proof. induction items as [|[[b o] n] items IH]; [done|]. cbn. by rewrite <- IH. Qed.

Section ForwardProperties.

Variable bert : list (list Z) → list (list Z) → list (list Z) → list (list vec).
Variable classifier : vec → Q.
Variable hidden_size : nat.
Variable hidden_dropout_prob : Q.

(** X4. On a batch of windows of one length in which every sentence id
    is the sentinel or a sentence index, some window has a sentence index,
    and the encoder returned one vector for every token of every window,
    the aggregator returns one block per window, all with [max id + 1]
    rows; a window without sentence ids gets offset 0 and count 0, any
    other window gets its least id as offset and
    [greatest id - least id + 1] as count; and every row of a block from
    the count on is a row of zeros. *)
Theorem aggregator_offsets_and_counts (d_model : nat) (ids : list (list Z))
    (seq_out : list (list vec)) :
  well_formed_ids ids → rectangular ids → token_aligned ids seq_out →
  ∃ agg offs nss m,
    _get_agg_output d_model ids seq_out = Ok (agg, offs, nss)
    ∧ tensor_max (concat ids) = Ok m
    ∧ length agg = length ids
    ∧ ∀ (i : nat) sen_ids, ids !! i = Some sen_ids →
        ∃ block off ns,
          agg !! i = Some block ∧ offs !! i = Some off ∧ nss !! i = Some ns
          ∧ length block = Z.to_nat (m + 1) ∧ 0 ≤ ns ≤ m + 1
          ∧ (present_ids sen_ids = [] → off = 0 ∧ ns = 0)
          ∧ (present_ids sen_ids ≠ [] →
             off ∈ present_ids sen_ids ∧ off + ns - 1 ∈ present_ids sen_ids
             ∧ Forall (λ x, off ≤ x < off + ns) (present_ids sen_ids))
          ∧ ∀ (r : nat) v, (Z.to_nat ns ≤ r)%nat → block !! r = Some v →
              v = replicate d_model 0%Q.
Proof.
  intros Hwf _ Hlen.
  destruct (_get_agg_output_well_formed d_model ids seq_out Hwf Hlen)
    as (items & m & Hm & _ & E & HF).
  eexists _, _, _, m. split_and!; [exact E | done | |].
  - rewrite length_fmap. symmetry. by eapply Forall2_length.
  - intros i sen_ids Hi.
    destruct (Forall2_lookup_l _ _ _ _ _ HF Hi) as ([[block off] ns] & Hit & H).
    exists block, off, ns. rewrite !list_lookup_fmap, Hit. simpl.
    destruct H as (? & ? & ? & ? & ?). split_and!; (done || lia).
Qed.

Lemma forward_well_formed (self : nn_Module)
    (noise : nat → nat → nat → bool)
    (input_ids attention_mask token_type_ids sentence_ids : list (list Z)) :
  well_formed_ids sentence_ids →
  token_aligned sentence_ids (bert input_ids attention_mask token_type_ids) →
  ∃ preds,
    forward bert classifier hidden_size hidden_dropout_prob self noise
      input_ids attention_mask token_type_ids sentence_ids = Ok preds
    ∧ length preds = length sentence_ids
    ∧ ∀ (i : nat) sen_ids p, sentence_ids !! i = Some sen_ids → preds !! i = Some p →
        StronglySorted Z.lt p
        ∧ (present_ids sen_ids = [] → p = [])
        ∧ ∀ g, g ∈ p →
            ∃ a b, a ∈ present_ids sen_ids ∧ b ∈ present_ids sen_ids ∧ a ≤ g ≤ b.
Proof.
  intros Hwf Hlen. unfold forward.
  destruct (_get_agg_output_well_formed hidden_size sentence_ids
              (dropout hidden_dropout_prob self noise
                 (bert input_ids attention_mask token_type_ids)) Hwf)
    as (items & m & Hm & Hm0 & E & HF); [by apply token_aligned_dropout|].
  rewrite E. cbn [mbind result_bind]. unfold _get_preds. rewrite zip_items.
  set (f := λ '(p, off, ns), preds_item threshold alpha p off ns).
  set (g := λ it : list vec * Z * Z, (classifier <$> it.1.1, it.1.2, it.2)).
  destruct (mapM_total f (g <$> items)) as [preds Hp].
  { intros x (it & -> & Hit)%list_elem_of_fmap. destruct it as [[block off] ns].
    apply list_elem_of_lookup in Hit as [j Hj].
    destruct (Forall2_lookup_r _ _ _ _ _ HF Hj) as (s & _ & Hb & Hn & _).
    unfold f, g. simpl. apply preds_item_total; [lia|].
    unfold len. rewrite length_fmap, Hb. lia. }
  exists preds. split; [exact Hp|].
  apply mapM_Ok in Hp. apply Forall2_fmap_l in Hp.
  split; [rewrite <- (Forall2_length _ _ _ Hp); symmetry; by eapply Forall2_length|].
  intros i sen_ids p Hi Hpi.
  destruct (Forall2_lookup_l _ _ _ _ _ HF Hi) as ([[block off] ns] & Hit & _ & Hn & He & Hne & _).
  destruct (Forall2_lookup_l _ _ _ _ _ Hp Hit) as (p' & Hp' & Hf).
  rewrite Hpi in Hp'. inversion Hp'; subst p'. unfold f, g in Hf. simpl in Hf.
  split_and!.
  - by eapply preds_item_sorted.
  - intros Hnil. destruct (He Hnil) as [-> ->]. by inversion Hf.
  - intros x Hx. apply preds_item_bounds in Hf; [|lia].
    eapply Forall_forall in Hf; [|exact Hx]. simpl in Hf.
    destruct (decide (present_ids sen_ids = [])) as [Hnil|Hsome].
    + destruct (He Hnil) as [-> ->]. lia.
    + destruct (Hne Hsome) as (Ha & Hb & _). exists off, (off + ns - 1).
      split_and!; (done || lia).
Qed.

(** X5. On such a batch, when the encoder returns one vector for every
    sentence-id position of every window, the forward pass raises nothing
    and returns one prediction per window: a strictly ascending list of
    indices, each between two sentence ids present in that window, and the
    empty list for a window without sentence ids. *)
Theorem forward_predicts_within_window (self : nn_Module)
    (noise : nat → nat → nat → bool)
    (input_ids attention_mask token_type_ids sentence_ids : list (list Z)) :
  well_formed_ids sentence_ids → rectangular sentence_ids →
  token_aligned sentence_ids (bert input_ids attention_mask token_type_ids) →
  ∃ preds,
    forward bert classifier hidden_size hidden_dropout_prob self noise
      input_ids attention_mask token_type_ids sentence_ids = Ok preds
    ∧ length preds = length sentence_ids
    ∧ ∀ (i : nat) sen_ids p, sentence_ids !! i = Some sen_ids → preds !! i = Some p →
        StronglySorted Z.lt p
        ∧ (present_ids sen_ids = [] → p = [])
        ∧ ∀ g, g ∈ p →
            ∃ a b, a ∈ present_ids sen_ids ∧ b ∈ present_ids sen_ids ∧ a ≤ g ≤ b.
Proof. intros Hwf _. by apply forward_well_formed. Qed.

End ForwardProperties.

Lemma aggregator_offsets_and_counts_witness :
  ∃ agg offs nss m,
    _get_agg_output 1 [[-100; -100; -100]; [-100; 3; 4]]
      [[[1]; [3]; [2]]; [[1]; [3]; [5]]]%Q = Ok (agg, offs, nss)
    ∧ tensor_max (concat [[-100; -100; -100]; [-100; 3; 4]]) = Ok m
    ∧ length agg = 2%nat.
Proof.
  destruct (aggregator_offsets_and_counts 1 [[-100; -100; -100]; [-100; 3; 4]]
              [[[1]; [3]; [2]]; [[1]; [3]; [5]]]%Q)
    as (agg & offs & nss & m & H1 & H2 & H3 & _).
  - split.
    + repeat constructor; lia.
    + exists [-100; 3; 4], 3. split_and!; [| | done].
      * right. left.
      * right. left.
  - exists 3%nat. by repeat constructor.
  - by repeat constructor.
  - by exists agg, offs, nss, m.
Defined.

Lemma forward_predicts_within_window_witness :
  ∃ preds,
    forward Toy.bert Toy.classifier Toy.hidden_size Toy.hidden_dropout_prob
      loaded_model Toy.noise
      [[101; 87; 102; 102]; [101; 87; 42; 102]] [[1; 1; 1; 1]; [1; 1; 1; 1]]
      [[0; 0; 0; 1]; [0; 0; 1; 1]]
      [[-100; -100; -100; -100]; [-100; -100; 7; -100]] = Ok preds
    ∧ length preds = 2%nat.
Proof.
  destruct (forward_predicts_within_window Toy.bert Toy.classifier Toy.hidden_size
              Toy.hidden_dropout_prob loaded_model Toy.noise
              [[101; 87; 102; 102]; [101; 87; 42; 102]] [[1; 1; 1; 1]; [1; 1; 1; 1]]
              [[0; 0; 0; 1]; [0; 0; 1; 1]]
              [[-100; -100; -100; -100]; [-100; -100; 7; -100]])
    as (preds & H1 & H2 & _).
  - split.
    + repeat constructor; lia.
    + exists [-100; -100; 7; -100], 7. split_and!; [| | done].
      * right. left.
      * do 2 right. left.
  - exists 4%nat. by repeat constructor.
  - by repeat constructor.
  - by exists preds.
Defined.

(** ** What the feature builder returns *)

Lemma length_window_sentence_ids wids seqs (wlsi : list Z) :
  length (window_sentence_ids wids seqs wlsi)
  = (token_start seqs + (length wids - token_start seqs))%nat.
Proof.
  unfold window_sentence_ids.
  by rewrite length_app, length_replicate, length_fmap, length_drop.
Qed.

Lemma window_sentence_ids_members wids seqs (wlsi : list Z) :
  Forall (λ x, x = -100 ∨ x ∈ wlsi) (window_sentence_ids wids seqs wlsi).
Proof.
  unfold window_sentence_ids. apply Forall_app. split.
  - apply Forall_forall. intros x [-> _]%elem_of_replicate. by left.
  - apply Forall_fmap, Forall_forall. intros [w|] _; simpl; [|by left].
    case_bool_decide; [|by left].
    destruct (wlsi !! w) as [sid|] eqn:E; simpl; [|by left].
    right. by eapply list_elem_of_lookup_2.
Qed.

Lemma mapM_raises {A B} (f : A → result B) (l : list A) (e : exn) :
  mapM f l = Raise e → ∃ x, x ∈ l ∧ f x = Raise e.
Proof.
  induction l as [|x l IH]; cbn [mapM]; [done|].
  destruct (f x) as [y|e'] eqn:E; cbn [mbind result_bind].
  - destruct (mapM f l) as [ys|e'']; cbn [mbind result_bind]; [done|].
    intros [= ->]. destruct IH as (x' & ? & ?); [done|]. exists x'. split; [by right | done].
  - intros [= ->]. exists x. split; [by left | done].
Qed.

Section FeatureBuilderFurther.

Variable tokenizer : list (list str) → list (list str) → Z → Z → BatchEncoding.

(** X9. The feature builder raises nothing but IndexError. When it
    returns, it returns one sentence-id list, example id and word-id list
    per overflow window; the word ids are the tokenizer's, untruncated,
    the example id is that of the window's sample, and every sentence id
    of a window is the sentinel or one of the word-level sentence ids of
    its sample. *)
Theorem feature_builder_output (examples : Examples) (max_seq_length stride : Z) :
  0 ≤ max_seq_length →
  let enc := tokenizer (question examples) (context examples) max_seq_length stride in
  match prepare_input_features tokenizer examples max_seq_length stride with
  | Raise e => e = IndexError
  | Ok feats =>
      length (f_sentence_ids feats) = length (overflow_to_sample_mapping enc)
      ∧ length (f_example_id feats) = length (overflow_to_sample_mapping enc)
      ∧ length (f_word_ids feats) = length (overflow_to_sample_mapping enc)
      ∧ ∀ (i sample : nat), overflow_to_sample_mapping enc !! i = Some sample →
          ∃ wlsi sids,
            word_level_sentence_ids examples !! sample = Some wlsi
            ∧ f_sentence_ids feats !! i = Some sids
            ∧ Forall (λ x, x = -100 ∨ x ∈ wlsi) sids
            ∧ f_word_ids feats !! i = word_ids enc !! i
            ∧ f_example_id feats !! i = id examples !! sample
  end.
Proof.
  intros HL enc. unfold prepare_input_features. fold enc.
  set (f := λ '(i, sample_index), _).
  destruct (mapM f (imap pair (overflow_to_sample_mapping enc))) as [rows|e] eqn:E;
    cbn [mbind result_bind].
  2:{ apply mapM_raises in E as ([i sample] & _ & E). unfold f, index in E.
      repeat (match type of E with
              | context [match ?o with Some _ => _ | None => _ end] => destruct o
              end; cbn [mbind result_bind] in E; try congruence). }
  cbn [f_sentence_ids f_example_id f_word_ids].
  pose proof (mapM_imap_lookup _ _ _ E) as [Hlen Hlook].
  rewrite !length_fmap. split_and!; [done | done | done |].
  intros i sample Hi.
  destruct (rows !! i) as [[[raw eid] wids]|] eqn:Er.
  2:{ apply lookup_ge_None in Er. apply lookup_lt_Some in Hi. lia. }
  destruct (Hlook _ _ Er) as (sample' & Hs & Hf). rewrite Hi in Hs.
  inversion Hs; subst sample'. unfold f in Hf.
  apply bind_Ok in Hf as (wids' & Hw%index_Ok & Hf).
  apply bind_Ok in Hf as (wlsi & Hwl%index_Ok & Hf).
  apply bind_Ok in Hf as (seqs & Hsq%index_Ok & Hf).
  apply bind_Ok in Hf as (eid' & He%index_Ok & Hf).
  inversion Hf; subst raw eid' wids'.
  exists wlsi, (slice_to (window_sentence_ids wids seqs wlsi) max_seq_length).
  rewrite !list_lookup_fmap, Er. simpl. split_and!; [done | done | | done | done].
  rewrite slice_to_nonneg by done. apply Forall_take, window_sentence_ids_members.
Qed.

End FeatureBuilderFurther.

Lemma feature_builder_output_witness :
  let examples :=
    {| question := [[py "What?"]]; context := [[py "A"; py "cat"; py "sat."]];
       word_level_sentence_ids := [[0; 0; 0]]; id := [0] |} in
  match prepare_input_features Toy.tokenizer examples 510 128 with
  | Raise e => e = IndexError
  | Ok feats => length (f_sentence_ids feats) = 1%nat
  end.
Proof.
  intros examples.
  pose proof (feature_builder_output Toy.tokenizer examples 510 128) as H.
  destruct (prepare_input_features Toy.tokenizer examples 510 128) as [feats|e].
  - destruct H as (H & _); [lia|]. exact H.
  - apply H. lia.
Defined.

(** ** The threshold, exactly *)

(** X8. When some position of the window reaches 0.5, the positions
    selected are exactly the positions whose probability is at least 0.5:
    none below the threshold is selected and the backoff adds none. *)
Theorem threshold_selection_exact (p : list Q) (off ns : Z) :
  0 < ns → ns ≤ len p →
  (∃ (j : nat) x, Z.of_nat j < ns ∧ p !! j = Some x ∧ (1 # 2 <= x)%Q) →
  ∃ sel : list Z,
    preds_item threshold alpha p off ns = Ok ((λ i, i + off) <$> sel)
    ∧ StronglySorted Z.lt sel
    ∧ ∀ i, i ∈ sel ↔
        ∃ (j : nat) x, i = Z.of_nat j ∧ Z.of_nat j < ns ∧ p !! j = Some x
                       ∧ (1 # 2 <= x)%Q.
Proof.
  intros Hns Hlen (j0 & x0 & Hj0 & Hx0 & Hge0). unfold preds_item.
  destruct (Z.eqb_spec ns 0) as [|_]; [lia|].
  rewrite slice_to_take by lia.
  set (rel := take (Z.to_nat ns) p).
  set (hits := (λ x, Qle_bool threshold x) <$> rel).
  assert (Hhit : ∀ (j : nat), hits !! j = Some true ↔
                 ∃ x, Z.of_nat j < ns ∧ p !! j = Some x ∧ (1 # 2 <= x)%Q).
  { intros j. unfold hits, rel. rewrite list_lookup_fmap. split.
    - destruct (take _ p !! j) as [x|] eqn:E; [|done]. simpl. intros [= H].
      apply lookup_take_Some in E as [E1 E2]. exists x.
      split_and!; [lia | done | by apply Qle_bool_iff].
    - intros (x & Hj & Hx & Hge).
      assert (take (Z.to_nat ns) p !! j = Some x) as ->
        by (apply lookup_take_Some; split; [done | lia]).
      simpl. f_equal. by apply Qle_bool_iff. }
  destruct (Z.eqb_spec (tensor_sum hits) 0) as [Hz|_].
  { apply tensor_sum_zero in Hz.
    assert (hits !! j0 = Some true) as Ht by (apply Hhit; by exists x0).
    eapply Forall_lookup_1 in Hz; [|exact Ht]. done. }
  cbn [mbind result_bind]. exists (where_true hits). split_and!.
  - done.
  - apply where_from_sorted.
  - intros i. unfold where_true. rewrite elem_of_where_from. split.
    + intros (k & Hk%Hhit & ->). destruct Hk as (x & ? & ? & ?).
      exists k, x. split_and!; (done || lia).
    + intros (j & x & -> & Hj & Hx & Hge). exists j. split; [|lia].
      apply Hhit. by exists x.
Qed.

Lemma threshold_selection_exact_witness :
  ∃ sel : list Z,
    preds_item threshold alpha [6 # 10; 1 # 10; 9 # 10]%Q 4 3
    = Ok ((λ i, i + 4) <$> sel)
    ∧ StronglySorted Z.lt sel.
Proof.
  destruct (threshold_selection_exact [6 # 10; 1 # 10; 9 # 10]%Q 4 3)
    as (sel & H1 & H2 & _).
  - lia.
  - by vm_compute.
  - exists 0%nat, (6 # 10)%Q. split_and!; [lia | done | by vm_compute].
  - by exists sel.
Defined.

(** ** Predicted indices are sentence indices *)

Lemma stack_Ok {A} (blocks out : list (list A)) : stack blocks = Ok out → out = blocks.
Proof.
  unfold stack. destruct blocks as [|b blocks]; [done|].
  destruct (forallb _ _); [by intros [= <-] | done].
Qed.

Lemma pad_sequence_single (pad : Z) (seq : list Z) : pad_sequence pad [seq] = [seq].
Proof.
  unfold pad_sequence. cbn [fmap list_fmap max_list].
  rewrite Nat.max_0_r, Nat.sub_diag. simpl. by rewrite app_nil_r.
Qed.

Lemma words_tagged_lemma (doc_sents : list str) words sentence_ids :
  prepare_words 0 doc_sents = (words, sentence_ids) →
  Forall (in_range doc_sents) sentence_ids.
Proof.
  intros E. pose proof (prepare_words_invariants 0 doc_sents) as H. rewrite E in H.
  destruct H as (_ & H2 & _). eapply Forall_impl; [exact H2|].
  unfold in_range. simpl. intros i ?. lia.
Qed.

Lemma feature_builder_ids
    (tokenizer : list (list str) → list (list str) → Z → Z → BatchEncoding)
    (examples : Examples) (max_seq_length stride : Z) feats (i : nat) sids :
  0 ≤ max_seq_length →
  prepare_input_features tokenizer examples max_seq_length stride = Ok feats →
  f_sentence_ids feats !! i = Some sids →
  ∃ (sample : nat) wlsi,
    overflow_to_sample_mapping
      (tokenizer (question examples) (context examples) max_seq_length stride) !! i
    = Some sample
    ∧ word_level_sentence_ids examples !! sample = Some wlsi
    ∧ Forall (λ x, x = -100 ∨ x ∈ wlsi) sids.
Proof.
  intros HL H Hs. unfold prepare_input_features in H.
  apply bind_Ok in H as (rows & Hrows & [= <-]). cbn [f_sentence_ids] in Hs.
  apply mapM_imap_lookup in Hrows as [_ Hrows].
  rewrite !list_lookup_fmap in Hs.
  destruct (rows !! i) as [[[raw eid] wids]|] eqn:Er; [|done].
  simpl in Hs. inversion Hs; subst sids.
  destruct (Hrows _ _ Er) as (sample & Hsample & Hf).
  apply bind_Ok in Hf as (wids' & _ & Hf).
  apply bind_Ok in Hf as (wlsi & Hwl%index_Ok & Hf).
  apply bind_Ok in Hf as (seqs & _ & Hf).
  apply bind_Ok in Hf as (eid' & _ & Hf).
  inversion Hf; subst raw eid' wids'.
  exists sample, wlsi. split_and!; [done | done |].
  rewrite slice_to_nonneg by done. apply Forall_take, window_sentence_ids_members.
Qed.

Section PredictedIndices.

Variable sent_tokenize : str → list str.
Variable tokenizer : list (list str) → list (list str) → Z → Z → BatchEncoding.
Variable bert : list (list Z) → list (list Z) → list (list Z) → list (list vec).
Variable classifier : vec → Q.
Variable hidden_size : nat.
Variable hidden_dropout_prob : Q.

(** Whenever the forward pass returns, the indices predicted for a window
    lie between two sentence ids of that window. *)
Lemma forward_Ok_bounds self noise input_ids attention_mask token_type_ids
    sentence_ids preds (i : nat) sen_ids p g :
  forward bert classifier hidden_size hidden_dropout_prob self noise
    input_ids attention_mask token_type_ids sentence_ids = Ok preds →
  sentence_ids !! i = Some sen_ids → preds !! i = Some p → g ∈ p →
  ∃ a b, a ∈ present_ids sen_ids ∧ b ∈ present_ids sen_ids ∧ a ≤ g ≤ b.
Proof.
  unfold forward, _get_agg_output. intros H Hi Hp Hg.
  apply bind_Ok in H as ([[agg offs] nss] & E & H).
  apply bind_Ok in E as (m & _ & E). apply bind_Ok in E as (items & Hitems & E).
  apply bind_Ok in E as (agg' & ->%stack_Ok & [= <- <- <-]).
  unfold _get_preds in H. rewrite zip_items in H.
  apply mapM_Ok, Forall2_fmap_l in H.
  apply mapM_imap_lookup in Hitems as [Hlen Hlook].
  destruct (Forall2_lookup_r _ _ _ _ _ H Hp) as ([[block off] ns] & Hit & Hf).
  simpl in Hf. destruct (Hlook _ _ Hit) as (s & Hs & Hagg).
  rewrite Hi in Hs. inversion Hs; subst s.
  apply bind_Ok in Hagg as (seq_i & _ & Hagg).
  apply agg_item_Ok in Hagg as [(_ & -> & -> & _) | (mx & Ha & Hb & Hall & -> & _)].
  - inversion Hf; subst. by apply elem_of_nil in Hg.
  - assert (off ≤ mx) by (eapply Forall_forall in Hall; [|exact Ha]; simpl in Hall; lia).
    apply preds_item_bounds in Hf; [|lia].
    eapply Forall_forall in Hf; [|exact Hg]. simpl in Hf.
    exists off, mx. split_and!; (done || lia).
Qed.

(** X6. Every index the model predicts for the first window is the index
    of a segmented sentence, so the range check of the result loop drops
    nothing: the handler returns the span of every predicted index. *)
Theorem predicted_indices_in_range model noise question context preds0 rest :
  predictions tokenizer bert classifier hidden_size hidden_dropout_prob
    model noise question (sent_tokenize context) = Ok (preds0 :: rest) →
  Forall (in_range (sent_tokenize context)) preds0
  ∧ (sent_tokenize context ≠ [] →
     _process_single sent_tokenize tokenizer bert classifier hidden_size
       hidden_dropout_prob model noise question context
     = Ok (highlight_of (sentence_positions context (sent_tokenize context))
             <$> preds0)).
Proof.
  intros H.
  assert (Hr : Forall (in_range (sent_tokenize context)) preds0).
  { unfold predictions in H.
    destruct (prepare_words 0 (sent_tokenize context)) as [words sids] eqn:Ew.
    apply words_tagged_lemma in Ew as Hin.
    apply bind_Ok in H as (feats & Hfeats & H).
    apply bind_Ok in H as (row & Hrow & H).
    cbn [fmap list_fmap] in H. rewrite !pad_sequence_single in H.
    assert (Hids : Forall (λ x, x = -100 ∨ x ∈ sids) (r_sentence_ids row)).
    { unfold dataset_row in Hrow.
      apply bind_Ok in Hrow as (a & _ & Hrow). apply bind_Ok in Hrow as (b & _ & Hrow).
      apply bind_Ok in Hrow as (c & _ & Hrow). apply bind_Ok in Hrow as (? & Hid & Hrow).
      apply bind_Ok in Hrow as (? & _ & Hrow).
      apply bind_Ok in Hrow as (d & Hd%index_Ok & [= <-]). cbn [r_sentence_ids].
      pose proof (feature_builder_ids tokenizer _ MAX_LENGTH STRIDE feats 0 d
                    ltac:(done) Hfeats Hd) as (sample & wlsi & _ & Hwl & Hall).
      cbn [word_level_sentence_ids] in Hwl.
      destruct sample as [|sample]; [|by destruct sample].
      by inversion Hwl; subst. }
    apply Forall_forall. intros g Hg.
    destruct (forward_Ok_bounds _ _ _ _ _ _ _ 0 _ _ g H eq_refl eq_refl Hg)
      as (a & b & Ha & Hb & Hab).
    assert (Hpres : ∀ x, x ∈ present_ids (r_sentence_ids row) →
                         in_range (sent_tokenize context) x).
    { intros x [Hne Hx]%elem_of_present_ids.
      eapply Forall_forall in Hids; [|exact Hx]. destruct Hids as [|Hx']; [done|].
      eapply Forall_forall in Hin; [|exact Hx']. done. }
    pose proof (Hpres a Ha) as [? ?]. pose proof (Hpres b Hb) as [? ?].
    unfold in_range. lia. }
  split; [done|]. intros Hne. unfold _process_single.
  destruct (sent_tokenize context) as [|sent ds] eqn:Ed; [done|]. rewrite <- Ed in *.
  rewrite H. cbn [mbind result_bind].
  destruct (Z.ltb_spec 0 (len preds0)) as [_|Hl].
  - rewrite highlights_of_resolved by apply length_sentence_positions_from.
    do 2 f_equal. clear -Hr. induction Hr as [|x l Hx _ IH]; [done|].
    rewrite filter_cons, decide_True by done. by rewrite IH.
  - destruct preds0; [done|]. unfold len in Hl. simpl in Hl. lia.
Qed.

End PredictedIndices.

Lemma predicted_indices_in_range_witness :
  Forall (in_range (Toy.sent_tokenize Toy.dog_context)) [1]
  ∧ (Toy.sent_tokenize Toy.dog_context ≠ [] →
     Toy.highlight (py "What?") Toy.dog_context
     = Ok (highlight_of (sentence_positions Toy.dog_context
                           (Toy.sent_tokenize Toy.dog_context)) <$> [1])).
Proof.
  apply (predicted_indices_in_range Toy.sent_tokenize Toy.tokenizer Toy.bert
           Toy.classifier Toy.hidden_size Toy.hidden_dropout_prob loaded_model
           Toy.noise (py "What?") Toy.dog_context [1] []).
  vm_compute. reflexivity.
Defined.

(** ** The collator *)

Lemma outcome_bind_Done {A B} (m : outcome A) (k : A → outcome B) (b : B) :
  m ≫= k = Done b → ∃ a, m = Done a ∧ k a = Done b.
Proof. destruct m as [a|e]; [by exists a | done]. Qed.

Lemma outcome_mapM_Done {A B} (f : A → outcome B) (l : list A) (ys : list B) :
  mapM f l = Done ys ↔ Forall2 (λ x y, f x = Done y) l ys.
Proof.
  split.
  - revert ys. induction l as [|x l IH]; intros ys; cbn [mapM].
    + intros [= <-]. constructor.
    + intros H. apply outcome_bind_Done in H as (y & Hy & H).
      apply outcome_bind_Done in H as (ys' & Hys & [= <-]).
      constructor; [done | by apply IH].
  - induction 1 as [|x y l ys Hxy _ IH]; cbn [mapM]; [done|].
    by rewrite Hxy, IH.
Qed.

Lemma pad_sequence_rows (pad : Z) (seqs : list (list Z)) :
  let width := max_list (length <$> seqs) in
  Forall2 (λ seq row, row = seq ++ replicate (width - length seq) pad
                      ∧ length row = width) seqs (pad_sequence pad seqs).
Proof.
  intros width. unfold pad_sequence. fold width.
  apply Forall2_fmap_r, Forall_Forall2_diag, Forall_forall. intros seq Hin.
  split; [done|]. rewrite length_app, length_replicate.
  assert (length seq ≤ width)%nat; [|lia].
  apply max_list_elem_of_le, list_elem_of_fmap. by exists seq.
Qed.

(** X3. When the collator returns, every field of the batch is one of the
    padded keys, holds one row per feature, and is rectangular: each row
    is the feature's sequence followed by the key's padding value, as long
    as the longest sequence under that key; and every padded key that the
    first feature has with a value is a field of the batch. *)
Theorem collator_pads_to_rectangle (pad_kvs : list (str * Z))
    (features : list feature) batch :
  DataCollatorWithPadding_call pad_kvs features = Done batch →
  (∀ key rows, (key, rows) ∈ batch →
     ∃ pad_value seqs,
       (key, pad_value) ∈ pad_kvs
       ∧ Forall2 (λ f seq, dict_get f key = Some (Some seq)) features seqs
       ∧ Forall2 (λ seq row,
            row = seq ++ replicate (max_list (length <$> seqs) - length seq) pad_value
            ∧ length row = max_list (length <$> seqs)) seqs rows)
  ∧ ∀ key pad_value first seq,
      (key, pad_value) ∈ pad_kvs → features !! 0%nat = Some first →
      dict_get first key = Some (Some seq) →
      ∃ rows, (key, rows) ∈ batch.
Proof.
  unfold DataCollatorWithPadding_call. intros H.
  apply outcome_bind_Done in H as (first & Hfirst & H).
  apply outcome_bind_Done in H as (fields & Hfields & [= <-]).
  apply outcome_mapM_Done in Hfields.
  assert (Hf0 : features !! 0%nat = Some first).
  { unfold index in Hfirst. destruct (features !! 0%nat); by inversion Hfirst. }
  split.
  - intros key rows Hin. apply elem_of_concat in Hin as (fld & Hfld & Hin).
    apply list_elem_of_lookup in Hfld as [j Hj].
    destruct (Forall2_lookup_r _ _ _ _ _ Hfields Hj) as ([key' pad] & Hkv & Hf).
    destruct (dict_get first key') as [[v|]|]; try (inversion Hf; subst;
      by apply elem_of_nil in Hin).
    apply outcome_bind_Done in Hf as (seqs & Hseqs & [= <-]).
    apply list_elem_of_singleton in Hin. inversion Hin; subst key' rows.
    exists pad, seqs. split_and!.
    + by eapply list_elem_of_lookup_2.
    + apply outcome_mapM_Done in Hseqs. eapply Forall2_impl; [exact Hseqs|].
      intros f seq Hfs. simpl in Hfs. by destruct (dict_get f key) as [[?|]|]; inversion Hfs.
    + apply pad_sequence_rows.
  - intros key pad first' seq Hin Hf0' Hget. rewrite Hf0 in Hf0'.
    inversion Hf0'; subst first'.
    apply list_elem_of_lookup in Hin as [j Hj].
    destruct (Forall2_lookup_l _ _ _ _ _ Hfields Hj) as (fld & Hfld & Hf).
    simpl in Hf. rewrite Hget in Hf.
    apply outcome_bind_Done in Hf as (seqs & _ & [= <-]).
    exists (pad_sequence pad seqs). apply elem_of_concat.
    exists [(key, pad_sequence pad seqs)]. split; [by eapply list_elem_of_lookup_2 | by left].
Qed.

Lemma collator_pads_to_rectangle_witness :
  ∃ pad_value seqs,
    (py "sentence_ids", pad_value) ∈ [(py "input_ids", 0); (py "sentence_ids", -100)]
    ∧ Forall2 (λ f seq, dict_get f (py "sentence_ids") = Some (Some seq))
        [[(py "input_ids", Some [101; 102]); (py "sentence_ids", Some [-100; -100])];
         [(py "input_ids", Some [101; 7; 102]); (py "sentence_ids", Some [-100; 0; -100])]]
        seqs
    ∧ Forall2 (λ seq row,
         row = seq ++ replicate (max_list (length <$> seqs) - length seq) pad_value
         ∧ length row = max_list (length <$> seqs)) seqs
        [[-100; -100; -100]; [-100; 0; -100]].
Proof.
  refine (proj1 (collator_pads_to_rectangle
            [(py "input_ids", 0); (py "sentence_ids", -100)]
            [[(py "input_ids", Some [101; 102]); (py "sentence_ids", Some [-100; -100])];
             [(py "input_ids", Some [101; 7; 102]); (py "sentence_ids", Some [-100; 0; -100])]]
            _ _) (py "sentence_ids") _ _).
  - vm_compute. reflexivity.
  - vm_compute. right. left.
Defined.

(** ** Requests *)

Ltac key_ne := let H := fresh in intros H; vm_compute in H; discriminate H.

Lemma bool_decide_is_Some {A} (o : option A) :
  bool_decide (is_Some o) = match o with Some _ => true | None => false end.
Proof.
  destruct o; [by apply bool_decide_eq_true_2 | apply bool_decide_eq_false_2].
  by intros [? ?].
Qed.

Lemma Forall2_impl_elem {A B} (P Q : A → B → Prop) (l : list A) (k : list B) :
  Forall2 P l k → (∀ x y, x ∈ l → P x y → Q x y) → Forall2 Q l k.
Proof.
  induction 1 as [|x y l k Hxy _ IH]; intros H; constructor.
  - apply H; [by left | done].
  - apply IH. intros x' y' Hx'. apply H. by right.
Qed.

Section ServingProperties.

Variable sent_tokenize : str → list str.
Variable tokenizer : list (list str) → list (list str) → Z → Z → BatchEncoding.
Variable bert : list (list Z) → list (list Z) → list (list Z) → list (list vec).
Variable classifier : vec → Q.
Variable hidden_size : nat.
Variable hidden_dropout_prob : Q.
Variable json_loads : str → outcome json.
Variable ill_typed : json → json → outcome (list Highlight).
Variable ill_typed_scored : json → json → outcome (list ScoredHighlight).

Abbreviation handle_row' :=
  (handle_row sent_tokenize tokenizer bert classifier hidden_size hidden_dropout_prob
     json_loads ill_typed).
Abbreviation process_items' :=
  (process_items sent_tokenize tokenizer bert classifier hidden_size
     hidden_dropout_prob ill_typed).
Abbreviation process_values' :=
  (process_values sent_tokenize tokenizer bert classifier hidden_size
     hidden_dropout_prob ill_typed).
Abbreviation process_values_scored' :=
  (process_values_scored sent_tokenize tokenizer bert classifier hidden_size
     hidden_dropout_prob ill_typed_scored).
Abbreviation inference_one' :=
  (inference_one sent_tokenize tokenizer bert classifier hidden_size
     hidden_dropout_prob ill_typed_scored).
Abbreviation inference_pairs' :=
  (inference_pairs sent_tokenize tokenizer bert classifier hidden_size
     hidden_dropout_prob ill_typed_scored).
Abbreviation _process_batch' :=
  (_process_batch sent_tokenize tokenizer bert classifier hidden_size
     hidden_dropout_prob ill_typed_scored).

(** A payload that is no string reaches the handler as it is when it
    comes in the body. *)
Lemma input_data_of_body (v : json) :
  (∀ s, v ≠ JStr s) → input_data_of json_loads [(py "body", v)] = Done v.
Proof.
  intros Hv. unfold input_data_of.
  assert (dict_get [(py "body", v)] (py "data") = None) as ->.
  { cbn [dict_get]. by rewrite decide_False by key_ne. }
  assert (dict_get [(py "body", v)] (py "body") = Some v) as ->.
  { cbn [dict_get]. by rewrite decide_True by done. }
  cbn. destruct v; try done. by destruct (Hv s).
Qed.

(** [handle_row] on a document: a dict without the key "inputs". *)
Lemma handle_row_document model noise row d :
  input_data_of json_loads row = Done (JDict d) →
  dict_get d (py "inputs") = None →
  handle_row' model noise row
  = match dict_get d (py "question"), dict_get d (py "context") with
    | Some q, Some c => process_values' model noise q c ≫= λ r, Done (Highlights r)
    | _, _ => Done (ErrorResponse "Invalid input format")
    end.
Proof.
  intros Hin Hno. unfold handle_row. rewrite Hin. cbn [mbind outcome_bind contains].
  rewrite Hno, bool_decide_is_Some. cbn [mbind outcome_bind].
  rewrite !bool_decide_is_Some.
  destruct (dict_get d (py "question")) as [q|] eqn:Eq; cbn [mbind outcome_bind]; [|done].
  rewrite ?bool_decide_is_Some.
  destruct (dict_get d (py "context")) as [c|] eqn:Ec; cbn [mbind outcome_bind andb]; [|done].
  unfold getitem. by rewrite Eq, Ec.
Qed.

(** X10. The function handler answers a malformed document in the
    response and raises nothing: a dict without "inputs" that lacks
    "question" or "context" gets the error "Invalid input format", and a
    dict whose "inputs" is no list gets "Unexpected inputs format",
    whatever else it contains. *)
Theorem handle_reports_malformed_documents model noise row d :
  input_data_of json_loads row = Done (JDict d) →
  (dict_get d (py "inputs") = None →
   dict_get d (py "question") = None ∨ dict_get d (py "context") = None →
   handle_row' model noise row = Done (ErrorResponse "Invalid input format"))
  ∧ (∀ v, dict_get d (py "inputs") = Some v → (∀ items, v ≠ JList items) →
     handle_row' model noise row = Done (ErrorResponse "Unexpected inputs format")).
Proof.
  intros Hin. split.
  - intros Hno Hmiss. rewrite (handle_row_document _ _ _ _ Hin Hno).
    destruct Hmiss as [-> | ->]; [done|]. by destruct (dict_get d (py "question")).
  - intros v Hv Hnl. unfold handle_row. rewrite Hin.
    cbn [mbind outcome_bind contains]. rewrite Hv, bool_decide_is_Some.
    cbn [mbind outcome_bind getitem]. rewrite Hv. cbn [mbind outcome_bind].
    destruct v; try done. by destruct (Hnl l).
Qed.

(** X11. The class handler raises ValueError on a dict that has none of
    the accepted shapes, and on a bare list of documents, the format the
    function handler accepts; a missing payload makes both handlers raise
    TypeError. *)
Theorem inference_rejects_unknown_shapes model noise :
  (∀ d, dict_get d (py "inputs") = None → dict_get d (py "batch") = None →
        dict_get d (py "question") = None
        ∨ (dict_get d (py "contexts") = None ∧ dict_get d (py "context") = None) →
        inference_one' model noise (JDict d) = Throw ValueError)
  ∧ (∀ items, Forall (λ x, ∀ s, x ≠ JStr s) items →
              inference_one' model noise (JList items) = Throw ValueError)
  ∧ inference_one' model noise JNull = Throw TypeError
  ∧ (∀ row, dict_get row (py "data") = None → dict_get row (py "body") = None →
            handle_row' model noise row = Throw TypeError).
Proof.
  split_and!.
  - intros d Hi Hb Hmiss. unfold inference_one. cbn [contains mbind outcome_bind].
    rewrite Hi, Hb, !bool_decide_is_Some.
    destruct Hmiss as [-> | [-> ->]]; cbn [mbind outcome_bind]; [done|].
    rewrite ?bool_decide_is_Some.
    destruct (dict_get d (py "question")); cbn [mbind outcome_bind andb]; done.
  - intros items Hitems. unfold inference_one. cbn [contains mbind outcome_bind].
    assert (Hno : ∀ key, existsb (λ x, match x with
                                        | JStr s => bool_decide (s = key)
                                        | _ => false
                                        end) items = false).
    { intros key. induction Hitems as [|x l Hx _ IH]; [done|]. simpl. rewrite IH.
      destruct x; try done. by destruct (Hx s). }
    rewrite !Hno. by cbn [mbind outcome_bind andb].
  - done.
  - intros row Hd Hb. unfold handle_row, input_data_of. by rewrite Hd, Hb.
Qed.

(** X12. The function handler treats a bare list of documents and the
    same list under "inputs" alike, and a batch is the list of what each
    document gets when sent alone: the batch returns exactly when every
    document returns, with the same highlights in the same order. *)
Theorem handle_batch_is_map_of_singles model noise (items : list json) :
  handle_row' model noise [(py "body", JList items)]
  = handle_row' model noise [(py "body", JDict [(py "inputs", JList items)])]
  ∧ (Forall (λ item, ∃ d, item = JDict d ∧ dict_get d (py "inputs") = None) items →
     ∀ rs, handle_row' model noise [(py "body", JList items)]
           = Done (BatchHighlights rs)
           ↔ Forall2 (λ item r, handle_row' model noise [(py "body", item)]
                                = Done (Highlights r)) items rs).
Proof.
  assert (Hlist : handle_row' model noise [(py "body", JList items)]
                  = process_items' model noise items ≫= λ rs, Done (BatchHighlights rs)).
  { unfold handle_row. by rewrite input_data_of_body by done. }
  split.
  - rewrite Hlist. unfold handle_row. rewrite input_data_of_body by done.
    cbn [mbind outcome_bind contains dict_get].
    rewrite decide_True by done. rewrite bool_decide_is_Some.
    cbn [mbind outcome_bind getitem dict_get]. by rewrite decide_True by done.
  - intros Hdocs rs. rewrite Hlist.
    assert (process_items' model noise items ≫= (λ rs, Done (BatchHighlights rs))
            = Done (BatchHighlights rs)
            ↔ process_items' model noise items = Done rs) as ->.
    { destruct (process_items' model noise items); cbn [mbind outcome_bind];
        split; congruence. }
    unfold process_items. rewrite outcome_mapM_Done.
    split; intros HF; eapply Forall2_impl_elem; try exact HF.
    all: intros item r Hitem; eapply Forall_forall in Hdocs; [|exact Hitem].
    all: destruct Hdocs as (d & -> & Hno).
    all: assert (Hb : input_data_of json_loads [(py "body", JDict d)] = Done (JDict d))
      by (by apply input_data_of_body).
    all: rewrite (handle_row_document model noise _ d Hb Hno).
    all: unfold getitem.
    all: destruct (dict_get d (py "question")) as [q|]; cbn [mbind outcome_bind]; try done.
    all: destruct (dict_get d (py "context")) as [c|]; cbn [mbind outcome_bind]; try done.
    all: destruct (process_values' model noise q c); cbn [mbind outcome_bind]; congruence.
Qed.

Lemma mapM_outcome_fmap {A B C} (f : A → outcome B) (g : A → outcome C) (h : C → B)
    (l : list A) :
  (∀ x, x ∈ l → f x = g x ≫= λ c, Done (h c)) →
  mapM f l = mapM g l ≫= λ cs, Done (h <$> cs).
Proof.
  induction l as [|x l IH]; intros H; cbn [mapM]; [done|].
  rewrite (H x) by by left. rewrite IH by (intros x' Hx'; apply H; by right).
  destruct (g x) as [c|e]; cbn [mbind outcome_bind]; [|done].
  by destruct (mapM g l).
Qed.

Lemma process_values_start_end model noise (q c : str) :
  process_values' model noise (JStr q) (JStr c)
  = process_values_scored' model noise (JStr q) (JStr c)
    ≫= λ r : list ScoredHighlight, Done (start_end <$> r).
Proof.
  unfold process_values, process_values_scored.
  rewrite (_process_single_start_end sent_tokenize tokenizer bert classifier
             hidden_size hidden_dropout_prob model noise q c).
  by destruct (SemanticHighlighterHandler_process_single _ _ _ _ _ _ _ _ _ _).
Qed.

(** On documents with string fields, the class handler's comprehensions
    followed by [_process_batch] process the documents one by one. *)
Lemma inference_pairs_string_documents model noise (d : list (str * json))
    (key : str) (items : list json) :
  dict_get d key = Some (JList items) → Forall string_document items →
  inference_pairs' model noise (JDict d) key
  = mapM (λ item,
            question ← getitem item (py "question");
            context ← getitem item (py "context");
            process_values_scored' model noise question context) items
    ≫= λ rs, Done (BatchHighlights ((λ r : list ScoredHighlight, start_end <$> r) <$> rs)).
Proof.
  intros Hkey Hdocs. unfold inference_pairs, _process_batch.
  cbn [getitem]. rewrite Hkey. cbn [mbind outcome_bind iterate].
  assert (∃ qs cs,
    mapM (λ item, getitem item (py "question")) items = Done qs
    ∧ mapM (λ item, getitem item (py "context")) items = Done cs
    ∧ mapM (λ '(question, context),
              process_values_scored' model noise question context) (zip qs cs)
      = mapM (λ item,
                question ← getitem item (py "question");
                context ← getitem item (py "context");
                process_values_scored' model noise question context) items)
    as (qs & cs & -> & -> & <-); [|done].
  clear Hkey. induction Hdocs as [|item items Hitem _ IH].
  - by exists [], [].
  - destruct Hitem as (di & q & c & -> & Hq & Hc). destruct IH as (qs & cs & Eq & Ec & E).
    exists (JStr q :: qs), (JStr c :: cs). cbn [mapM getitem zip zip_with].
    rewrite Hq, Hc, Eq, Ec. cbn [mbind outcome_bind]. by rewrite E.
Qed.

(** X13. The class handler reads "batch" as it reads "inputs", and a
    question with a list of contexts as the list of documents pairing the
    question with each context. *)
Theorem inference_formats_coincide model noise (d : list (str * json)) :
  (∀ v, dict_get d (py "question") = None → dict_get d (py "inputs") = None →
        dict_get d (py "batch") = Some v →
        inference_one' model noise (JDict d)
        = inference_one' model noise (JDict [(py "inputs", v)]))
  ∧ (∀ q cs, dict_get d (py "question") = Some q →
             dict_get d (py "contexts") = Some (JList cs) →
             inference_one' model noise (JDict d)
             = inference_one' model noise
                 (JDict [(py "inputs",
                          JList ((λ c, JDict [(py "question", q); (py "context", c)])
                                 <$> cs))])).
Proof.
  assert (Hinputs : ∀ v, inference_one' model noise (JDict [(py "inputs", v)])
                         = inference_pairs' model noise (JDict [(py "inputs", v)])
                             (py "inputs")).
  { intros v. unfold inference_one. cbn [contains dict_get mbind outcome_bind].
    rewrite (decide_False (P := py "inputs" = py "question")) by key_ne.
    rewrite ?bool_decide_is_Some. cbn [mbind outcome_bind andb].
    rewrite decide_True by done. by rewrite ?bool_decide_is_Some. }
  split.
  - intros v Hq Hi Hb. rewrite Hinputs. unfold inference_one.
    cbn [contains mbind outcome_bind]. rewrite Hq, Hi, Hb, ?bool_decide_is_Some.
    cbn [mbind outcome_bind andb]. unfold inference_pairs. cbn [getitem dict_get].
    rewrite Hb. by rewrite decide_True by done.
  - intros q cs Hq Hcs. rewrite Hinputs. unfold inference_one.
    cbn [contains mbind outcome_bind]. rewrite Hq, ?bool_decide_is_Some.
    cbn [mbind outcome_bind]. rewrite Hcs, ?bool_decide_is_Some.
    cbn [mbind outcome_bind andb getitem]. rewrite Hq, Hcs.
    cbn [mbind outcome_bind iterate]. unfold inference_pairs.
    cbn [getitem dict_get]. rewrite decide_True by done.
    cbn [mbind outcome_bind iterate].
    assert (mapM (λ item, getitem item (py "question"))
              ((λ c, JDict [(py "question", q); (py "context", c)]) <$> cs)
            = Done (replicate (length cs) q)) as ->.
    { clear Hcs. induction cs as [|c cs IH]; [done|].
      cbn [fmap list_fmap mapM getitem dict_get].
      rewrite decide_True by done. cbn [mbind outcome_bind].
      cbn [fmap list_fmap] in IH. by rewrite IH. }
    assert (mapM (λ item, getitem item (py "context"))
              ((λ c, JDict [(py "question", q); (py "context", c)]) <$> cs)
            = Done cs) as ->.
    { clear Hcs. induction cs as [|c cs IH]; [done|].
      cbn [fmap list_fmap mapM getitem dict_get].
      rewrite decide_False by key_ne. rewrite decide_True by done.
      cbn [mbind outcome_bind]. cbn [fmap list_fmap] in IH. by rewrite IH. }
    done.
Qed.

(** X14. On documents whose question and context are strings the two
    handlers answer alike: a single document, and a list of documents
    under "inputs", get the same response from the function handler and
    from the class handler, or make both raise the same exception. *)
Theorem handlers_answer_alike model noise (d : list (str * json)) :
  dict_get d (py "contexts") = None →
  (∀ q c, dict_get d (py "question") = Some (JStr q) →
          dict_get d (py "context") = Some (JStr c) →
          dict_get d (py "inputs") = None → dict_get d (py "batch") = None →
          handle_row' model noise [(py "body", JDict d)]
          = inference_one' model noise (JDict d))
  ∧ (∀ items, dict_get d (py "inputs") = Some (JList items) →
              Forall string_document items →
              handle_row' model noise [(py "body", JDict d)]
              = inference_one' model noise (JDict d)).
Proof.
  intros Hcs.
  assert (Hb : input_data_of json_loads [(py "body", JDict d)] = Done (JDict d))
    by (by apply input_data_of_body).
  split.
  - intros q c Hq Hc Hi Hba. rewrite (handle_row_document model noise _ d Hb Hi).
    rewrite Hq, Hc. unfold inference_one. cbn [contains mbind outcome_bind].
    rewrite Hq, Hc, Hcs, Hi, Hba, ?bool_decide_is_Some.
    cbn [mbind outcome_bind andb getitem]. rewrite ?bool_decide_is_Some, Hq, Hc.
    cbn [mbind outcome_bind andb]. rewrite process_values_start_end.
    by destruct (process_values_scored' _ _ _ _).
  - intros items Hi Hdocs. unfold handle_row. rewrite Hb.
    cbn [contains mbind outcome_bind]. rewrite Hi, ?bool_decide_is_Some.
    cbn [mbind outcome_bind getitem]. rewrite Hi. cbn [mbind outcome_bind].
    unfold inference_one. cbn [contains mbind outcome_bind].
    rewrite Hcs, Hi, ?bool_decide_is_Some.
    destruct (dict_get d (py "question")); cbn [mbind outcome_bind andb].
    all: rewrite (inference_pairs_string_documents model noise d _ items Hi Hdocs).
    all: unfold process_items.
    all: rewrite (mapM_outcome_fmap _
           (λ item, question ← getitem item (py "question");
                    context ← getitem item (py "context");
                    process_values_scored' model noise question context)
           (λ r : list ScoredHighlight, start_end <$> r)).
    all: try by destruct (mapM _ items).
    all: intros item Hitem; eapply Forall_forall in Hdocs; [|exact Hitem].
    all: destruct Hdocs as (di & q & c & -> & Hq & Hc); cbn [getitem].
    all: rewrite Hq, Hc; cbn [mbind outcome_bind]; apply process_values_start_end.
Qed.

End ServingProperties.

Lemma handle_reports_malformed_documents_witness :
  handle_row Toy.sent_tokenize Toy.tokenizer Toy.bert Toy.classifier Toy.hidden_size
    Toy.hidden_dropout_prob ToyServing.json_loads ToyServing.ill_typed
    loaded_model Toy.noise [(py "body", JDict [(py "query", JStr (py "dogs"))])]
  = Done (ErrorResponse "Invalid input format").
Proof.
  apply (proj1 (handle_reports_malformed_documents Toy.sent_tokenize Toy.tokenizer
                  Toy.bert Toy.classifier Toy.hidden_size Toy.hidden_dropout_prob
                  ToyServing.json_loads ToyServing.ill_typed loaded_model Toy.noise
                  [(py "body", JDict [(py "query", JStr (py "dogs"))])]
                  [(py "query", JStr (py "dogs"))] eq_refl)).
  - reflexivity.
  - left. reflexivity.
Defined.

Lemma inference_rejects_unknown_shapes_witness :
  inference_one Toy.sent_tokenize Toy.tokenizer Toy.bert Toy.classifier
    Toy.hidden_size Toy.hidden_dropout_prob ToyServing.ill_typed_scored
    loaded_model Toy.noise (JDict [(py "query", JStr (py "dogs"))])
  = Throw ValueError.
Proof.
  apply (proj1 (inference_rejects_unknown_shapes Toy.sent_tokenize Toy.tokenizer
                  Toy.bert Toy.classifier Toy.hidden_size Toy.hidden_dropout_prob
                  ToyServing.json_loads ToyServing.ill_typed
                  ToyServing.ill_typed_scored loaded_model Toy.noise)).
  - reflexivity.
  - reflexivity.
  - left. reflexivity.
Defined.

Lemma handle_batch_is_map_of_singles_witness :
  handle_row Toy.sent_tokenize Toy.tokenizer Toy.bert Toy.classifier Toy.hidden_size
    Toy.hidden_dropout_prob ToyServing.json_loads ToyServing.ill_typed
    loaded_model Toy.noise [(py "body", JList [ToyServing.dog_request])]
  = Done (BatchHighlights [[{| start := 11; end_ := 30 |}]]).
Proof.
  apply (proj2 (handle_batch_is_map_of_singles Toy.sent_tokenize Toy.tokenizer
                  Toy.bert Toy.classifier Toy.hidden_size Toy.hidden_dropout_prob
                  ToyServing.json_loads ToyServing.ill_typed loaded_model Toy.noise
                  [ToyServing.dog_request])).
  - constructor; [|constructor]. eexists. split; reflexivity.
  - constructor; [|constructor]. vm_compute. reflexivity.
Defined.

Lemma inference_formats_coincide_witness :
  inference_one Toy.sent_tokenize Toy.tokenizer Toy.bert Toy.classifier
    Toy.hidden_size Toy.hidden_dropout_prob ToyServing.ill_typed_scored
    loaded_model Toy.noise (JDict [(py "batch", JList [ToyServing.dog_request])])
  = inference_one Toy.sent_tokenize Toy.tokenizer Toy.bert Toy.classifier
      Toy.hidden_size Toy.hidden_dropout_prob ToyServing.ill_typed_scored
      loaded_model Toy.noise (JDict [(py "inputs", JList [ToyServing.dog_request])]).
Proof.
  apply (proj1 (inference_formats_coincide Toy.sent_tokenize Toy.tokenizer
                  Toy.bert Toy.classifier Toy.hidden_size Toy.hidden_dropout_prob
                  ToyServing.ill_typed_scored loaded_model Toy.noise
                  [(py "batch", JList [ToyServing.dog_request])]));
    reflexivity.
Defined.

Lemma handlers_answer_alike_witness :
  handle_row Toy.sent_tokenize Toy.tokenizer Toy.bert Toy.classifier Toy.hidden_size
    Toy.hidden_dropout_prob ToyServing.json_loads ToyServing.ill_typed
    loaded_model Toy.noise [(py "body", ToyServing.dog_request)]
  = inference_one Toy.sent_tokenize Toy.tokenizer Toy.bert Toy.classifier
      Toy.hidden_size Toy.hidden_dropout_prob ToyServing.ill_typed_scored
      loaded_model Toy.noise ToyServing.dog_request.
Proof.
  refine (proj1 (handlers_answer_alike Toy.sent_tokenize Toy.tokenizer
                   Toy.bert Toy.classifier Toy.hidden_size Toy.hidden_dropout_prob
                   ToyServing.json_loads ToyServing.ill_typed
                   ToyServing.ill_typed_scored loaded_model Toy.noise
                   [(py "question", JStr (py "What did the dog do?"));
                    (py "context", JStr Toy.dog_context)] _) _ _ _ _ _ _);
    reflexivity.
Defined.

(** ** When the handler returns *)

Lemma feature_builder_output_lemma
    (tokenizer : list (list str) → list (list str) → Z → Z → BatchEncoding)
    (examples : Examples) (max_seq_length stride : Z) feats :
  0 ≤ max_seq_length →
  prepare_input_features tokenizer examples max_seq_length stride = Ok feats →
  let enc := tokenizer (question examples) (context examples) max_seq_length stride in
  f_input_ids feats = (λ seq, slice_to seq max_seq_length) <$> input_ids enc
  ∧ f_token_type_ids feats = (λ seq, slice_to seq max_seq_length) <$> token_type_ids enc
  ∧ f_attention_mask feats = (λ seq, slice_to seq max_seq_length) <$> attention_mask enc
  ∧ length (f_input_ids feats) = length (input_ids enc)
  ∧ length (f_token_type_ids feats) = length (token_type_ids enc)
  ∧ length (f_attention_mask feats) = length (attention_mask enc)
  ∧ length (f_example_id feats) = length (overflow_to_sample_mapping enc)
  ∧ length (f_word_ids feats) = length (overflow_to_sample_mapping enc)
  ∧ length (f_sentence_ids feats) = length (overflow_to_sample_mapping enc)
  ∧ ∀ (i sample : nat), overflow_to_sample_mapping enc !! i = Some sample →
      ∃ wids seqs wlsi,
        word_ids enc !! i = Some wids ∧ sequence_ids enc !! i = Some seqs
        ∧ word_level_sentence_ids examples !! sample = Some wlsi
        ∧ f_sentence_ids feats !! i
          = Some (slice_to (window_sentence_ids wids seqs wlsi) max_seq_length).
Proof.
  intros HL H enc. unfold prepare_input_features in H. fold enc in H.
  apply bind_Ok in H as (rows & Hrows & [= <-]).
  cbn [f_input_ids f_token_type_ids f_attention_mask f_example_id f_word_ids
         f_sentence_ids].
  pose proof (mapM_imap_lookup _ _ _ Hrows) as [Hlen Hlook].
  rewrite !length_fmap. split_and!; try done.
  intros i sample Hi.
  destruct (rows !! i) as [[[raw eid] wids']|] eqn:Er.
  2:{ apply lookup_ge_None in Er. apply lookup_lt_Some in Hi. lia. }
  destruct (Hlook _ _ Er) as (sample' & Hsample & Hf).
  rewrite Hi in Hsample. inversion Hsample; subst sample'.
  apply bind_Ok in Hf as (wids & Hw%index_Ok & Hf).
  apply bind_Ok in Hf as (wlsi & Hwl%index_Ok & Hf).
  apply bind_Ok in Hf as (seqs & Hsq%index_Ok & Hf).
  apply bind_Ok in Hf as (eid' & _ & Hf).
  inversion Hf; subst raw eid' wids'. exists wids, seqs, wlsi.
  rewrite !list_lookup_fmap, Er. by split_and!.
Qed.

Section HandlerReturns.

Variable sent_tokenize : str → list str.
Variable tokenizer : list (list str) → list (list str) → Z → Z → BatchEncoding.
Variable bert : list (list Z) → list (list Z) → list (list Z) → list (list vec).
Variable classifier : vec → Q.
Variable hidden_size : nat.
Variable hidden_dropout_prob : Q.

(** Under the tokenizer's contract the feature builder, the row lookup and
    the collator raise nothing, and the model receives the first window
    alone, with its sentence ids cut at 510. *)
Lemma predictions_first_window model noise (q : str) (doc_sents : list str) words sids :
  prepare_words 0 doc_sents = (words, sids) →
  tokenizer_contract (tokenizer [[q]] [words] MAX_LENGTH STRIDE) →
  ∃ ids tts am wids seqs,
    input_ids (tokenizer [[q]] [words] MAX_LENGTH STRIDE) !! 0%nat = Some ids
    ∧ token_type_ids (tokenizer [[q]] [words] MAX_LENGTH STRIDE) !! 0%nat = Some tts
    ∧ attention_mask (tokenizer [[q]] [words] MAX_LENGTH STRIDE) !! 0%nat = Some am
    ∧ word_ids (tokenizer [[q]] [words] MAX_LENGTH STRIDE) !! 0%nat = Some wids
    ∧ sequence_ids (tokenizer [[q]] [words] MAX_LENGTH STRIDE) !! 0%nat = Some seqs
    ∧ predictions tokenizer bert classifier hidden_size hidden_dropout_prob
        model noise q doc_sents
      = forward bert classifier hidden_size hidden_dropout_prob model noise
          [slice_to ids MAX_LENGTH] [slice_to am MAX_LENGTH] [slice_to tts MAX_LENGTH]
          [slice_to (window_sentence_ids wids seqs sids) MAX_LENGTH].
Proof.
  intros Ew. set (enc := tokenizer [[q]] [words] MAX_LENGTH STRIDE).
  intros (Hn & Hsamples & Hlw & Hls & Hli & Hlt & Hla).
  unfold predictions. rewrite Ew.
  set (ex := {| question := [[q]]; context := [words];
                word_level_sentence_ids := [sids]; id := [0] |}).
  assert (Hfeats : ∃ feats, prepare_input_features tokenizer ex MAX_LENGTH STRIDE
                            = Ok feats).
  { unfold prepare_input_features. cbn [question context word_level_sentence_ids id ex].
    fold enc.
    match goal with
    | |- context [mapM ?f ?l] => destruct (mapM_total f l) as [rows Hrows]
    end.
    { intros [i sample] Hin. apply list_elem_of_lookup in Hin as [j Hj].
      rewrite list_lookup_imap in Hj.
      destruct (overflow_to_sample_mapping enc !! j) as [s|] eqn:Es; [|done].
      simpl in Hj. inversion Hj; subst.
      eapply Forall_lookup_1 in Hsamples; [|exact Es]. subst sample.
      apply lookup_lt_Some in Es.
      destruct (lookup_lt_is_Some_2 (word_ids enc) i) as [x Hx]; [lia|].
      destruct (lookup_lt_is_Some_2 (sequence_ids enc) i) as [y Hy]; [lia|].
      unfold index. rewrite Hx, Hy. by eexists. }
    rewrite Hrows. by eexists. }
  destruct Hfeats as [feats Hfeats]. rewrite Hfeats. cbn [mbind result_bind].
  pose proof (feature_builder_output_lemma tokenizer ex MAX_LENGTH STRIDE feats
                ltac:(done) Hfeats)
    as (Hin & Htt & Ham & Hl1 & Hl2 & Hl3 & Hl4 & Hl5 & Hl6 & Hrow0).
  cbn [question context word_level_sentence_ids ex]
    in Hin, Htt, Ham, Hl1, Hl2, Hl3, Hl4, Hl5, Hl6, Hrow0.
  fold enc in Hin, Htt, Ham, Hl1, Hl2, Hl3, Hl4, Hl5, Hl6, Hrow0.
  destruct (lookup_lt_is_Some_2 (input_ids enc) 0) as [ids Hids]; [lia|].
  destruct (lookup_lt_is_Some_2 (token_type_ids enc) 0) as [tts Htts]; [lia|].
  destruct (lookup_lt_is_Some_2 (attention_mask enc) 0) as [am Hams]; [lia|].
  assert (Ha : f_input_ids feats !! 0%nat = Some (slice_to ids MAX_LENGTH))
    by (by rewrite Hin, list_lookup_fmap, Hids).
  assert (Hb : f_token_type_ids feats !! 0%nat = Some (slice_to tts MAX_LENGTH))
    by (by rewrite Htt, list_lookup_fmap, Htts).
  assert (Hc : f_attention_mask feats !! 0%nat = Some (slice_to am MAX_LENGTH))
    by (by rewrite Ham, list_lookup_fmap, Hams).
  destruct (lookup_lt_is_Some_2 (f_example_id feats) 0) as [e He]; [lia|].
  destruct (lookup_lt_is_Some_2 (f_word_ids feats) 0) as [f Hf]; [lia|].
  destruct (lookup_lt_is_Some_2 (overflow_to_sample_mapping enc) 0) as [sample Hs];
    [lia|].
  destruct (Hrow0 0%nat sample Hs) as (wids & seqs & wlsi & Hw & Hs' & Hwlsi & Hd).
  eapply Forall_lookup_1 in Hsamples; [|exact Hs]. subst sample.
  inversion Hwlsi; subst wlsi.
  exists ids, tts, am, wids, seqs. split_and!; [done..|].
  unfold dataset_row, index. rewrite Ha, Hb, Hc, He, Hf, Hd.
  cbn [mbind result_bind fmap list_fmap r_input_ids r_attention_mask
         r_token_type_ids r_sentence_ids].
  by rewrite !pad_sequence_single.
Qed.

(** A single window without sentence ids is refused by the forward pass
    when the encoder returned an entry for it. *)
Lemma forward_without_sentence_ids self noise (a c b d : list Z) :
  Forall (λ x, x = -100) d →
  (0 < length (bert [a] [c] [b]))%nat →
  forward bert classifier hidden_size hidden_dropout_prob self noise [a] [c] [b] [d]
  = Raise RuntimeError.
Proof.
  intros Hd Hlen. unfold forward, _get_agg_output.
  rewrite <- (length_dropout hidden_dropout_prob self noise) in Hlen.
  destruct (dropout hidden_dropout_prob self noise (bert [a] [c] [b]))
    as [|seq_i seq_out]; [simpl in Hlen; lia|].
  simpl concat. rewrite app_nil_r.
  destruct Hd as [|x d -> Hd]; [done|].
  assert (tensor_max (-100 :: d) = Ok (-100)) as ->.
  { simpl. f_equal. induction Hd as [|y l -> _ IH]; [done|]. simpl. exact IH. }
  cbn. rewrite agg_item_all_none by by constructor. done.
Qed.

(** X16. When the tokenizer keeps its contract and gives every token of
    a window a word id, a sequence id, a token type id and an attention
    mask entry, the encoder returns one vector for every token of every
    window on inputs of one shape, and some token among the first 510 of
    the first window, at or after the first passage position, comes from a
    word of the passage, the handler raises nothing: it returns a list of
    highlights. *)
Theorem handler_returns model noise (q ctx : str) :
  let words := (prepare_words 0 (sent_tokenize ctx)).1 in
  let enc := tokenizer [[q]] [words] MAX_LENGTH STRIDE in
  tokenizer_contract enc → encoding_aligned enc →
  (∀ a b c, same_shape a b → same_shape a c → token_aligned a (bert a b c)) →
  (∃ wids seqs (t w : nat),
     word_ids enc !! 0%nat = Some wids ∧ sequence_ids enc !! 0%nat = Some seqs
     ∧ (t < 510)%nat ∧ (token_start seqs ≤ t)%nat
     ∧ wids !! t = Some (Some w) ∧ (w < length words)%nat) →
  ∃ hs, _process_single sent_tokenize tokenizer bert classifier hidden_size
          hidden_dropout_prob model noise q ctx = Ok hs.
Proof.
  intros words enc. subst words enc.
  destruct (prepare_words 0 (sent_tokenize ctx)) as [words sids] eqn:Ew. cbn [fst].
  intros Hc (Halw & Hals & Halt & Hala) Hbert
    (wids & seqs & t & w & Hwids & Hseqs & Ht & Hts & Hw & Hwl).
  destruct (predictions_first_window model noise q _ _ _ Ew Hc)
    as (ids & tts & am & wids' & seqs' & Hids & Htts & Ham & Hwids' & Hseqs' & Hpred).
  pose proof (Forall2_lookup_lr _ _ _ _ _ _ Halt Hids Htts) as Hlt.
  pose proof (Forall2_lookup_lr _ _ _ _ _ _ Hala Hids Ham) as Hla.
  simpl in Hlt, Hla.
  rewrite Hwids in Hwids'. rewrite Hseqs in Hseqs'.
  inversion Hwids'; inversion Hseqs'; subst wids' seqs'.
  pose proof (Forall2_lookup_lr _ _ _ _ _ _ Halw Hids Hwids) as Hlw.
  pose proof (Forall2_lookup_lr _ _ _ _ _ _ Hals Hids Hseqs) as Hls.
  simpl in Hlw, Hls.
  pose proof (prepare_words_invariants 0 (sent_tokenize ctx)) as Hinv.
  rewrite Ew in Hinv. destruct Hinv as (Hlen & Hrange & _).
  set (a := slice_to ids MAX_LENGTH) in Hpred.
  set (b := slice_to tts MAX_LENGTH) in Hpred.
  set (c := slice_to am MAX_LENGTH) in Hpred.
  set (d := slice_to (window_sentence_ids wids seqs sids) MAX_LENGTH) in Hpred.
  assert (Hda : length d = length a).
  { unfold d, a. rewrite !slice_to_nonneg by done. rewrite !length_take.
    rewrite length_window_sentence_ids.
    pose proof (token_start_le seqs). lia. }
  destruct (forward_well_formed bert classifier hidden_size hidden_dropout_prob
              model noise [a] [c] [b] [d]) as (preds & Hp & _).
  - split.
    + constructor; [|constructor]. unfold d. rewrite slice_to_nonneg by done.
      apply Forall_take. eapply Forall_impl; [apply window_sentence_ids_members|].
      simpl. intros x [-> | Hx]; [by left | right].
      eapply Forall_forall in Hrange; [|exact Hx]. simpl in Hrange. lia.
    + destruct (lookup_lt_is_Some_2 sids w) as [sid Hsid]; [lia|].
      exists d, sid. split_and!; [by left | |].
      * unfold d. rewrite slice_to_nonneg by done.
        apply list_elem_of_lookup. exists t. apply lookup_take_Some.
        split; [|exact Ht]. rewrite window_sentence_ids_from by done.
        rewrite Hw. simpl. rewrite bool_decide_eq_true_2 by lia. by rewrite Hsid.
      * eapply Forall_lookup_1 in Hrange; [|exact Hsid]. simpl in Hrange. lia.
  - assert (Hal : token_aligned [a] (bert [a] [c] [b])).
    { apply Hbert; (constructor; [|constructor]); unfold a, b, c;
        rewrite !slice_to_nonneg by done; rewrite !length_take; lia. }
    unfold token_aligned in *.
    destruct (bert [a] [c] [b]) as [|out outs]; [by inversion Hal|].
    apply Forall2_cons in Hal as [Ho Hal]. inversion Hal; subst outs.
    constructor; [lia | constructor].
  - rewrite Hp in Hpred. unfold _process_single.
    destruct (sent_tokenize ctx) as [|sent rest] eqn:Ed; [by eexists|].
    rewrite Hpred. cbn [mbind result_bind].
    destruct preds as [|preds0 preds]; [by eexists|].
    destruct (0 <? len preds0); [|by eexists].
    rewrite highlights_of_resolved by apply length_sentence_positions_from.
    by eexists.
Qed.

(** X17. When the tokenizer keeps its contract and the encoder returns an
    entry for every window, but no token among the first 510 of the first
    window comes from a word of the passage, the handler raises
    RuntimeError on every passage with a sentence. *)
Theorem handler_raises_without_passage_tokens model noise (q ctx : str) :
  let words := (prepare_words 0 (sent_tokenize ctx)).1 in
  let enc := tokenizer [[q]] [words] MAX_LENGTH STRIDE in
  sent_tokenize ctx ≠ [] →
  tokenizer_contract enc →
  (∀ a b c, length (bert a b c) = length a) →
  (∀ wids seqs (t w : nat),
     word_ids enc !! 0%nat = Some wids → sequence_ids enc !! 0%nat = Some seqs →
     (t < 510)%nat → (token_start seqs ≤ t)%nat → wids !! t = Some (Some w) →
     (length words ≤ w)%nat) →
  _process_single sent_tokenize tokenizer bert classifier hidden_size
    hidden_dropout_prob model noise q ctx = Raise RuntimeError.
Proof.
  intros words enc. subst words enc.
  destruct (prepare_words 0 (sent_tokenize ctx)) as [words sids] eqn:Ew. cbn [fst].
  intros Hne Hc Hbert Hnone.
  destruct (predictions_first_window model noise q _ _ _ Ew Hc)
    as (ids & tts & am & wids & seqs & _ & _ & _ & Hwids & Hseqs & Hpred).
  pose proof (prepare_words_invariants 0 (sent_tokenize ctx)) as Hinv.
  rewrite Ew in Hinv. destruct Hinv as (Hlen & _).
  rewrite forward_without_sentence_ids in Hpred.
  - unfold _process_single.
    destruct (sent_tokenize ctx) as [|sent rest] eqn:Ed; [done|].
    by rewrite Hpred.
  - rewrite slice_to_nonneg by done. apply Forall_lookup. intros t x Hx.
    apply lookup_take_Some in Hx as [Hx Ht].
    destruct (decide (t < token_start seqs)%nat) as [Hlt|Hge].
    + rewrite window_sentence_ids_before in Hx by done. by inversion Hx.
    + rewrite window_sentence_ids_from in Hx by lia.
      destruct (wids !! t) as [[w|]|] eqn:Hw; simpl in Hx; [|by inversion Hx|done].
      specialize (Hnone wids seqs t w Hwids Hseqs Ht ltac:(lia) Hw).
      rewrite bool_decide_eq_false_2 in Hx by lia. by inversion Hx.
  - rewrite Hbert. simpl. lia.
Qed.

End HandlerReturns.

Lemma handler_returns_witness :
  ∃ hs, Toy.highlight (py "What did the dog do?") Toy.dog_context = Ok hs.
Proof.
  apply (handler_returns Toy.sent_tokenize Toy.tokenizer Toy.bert Toy.classifier
           Toy.hidden_size Toy.hidden_dropout_prob loaded_model Toy.noise
           (py "What did the dog do?") Toy.dog_context).
  - vm_compute. repeat split; repeat constructor.
  - vm_compute. split; repeat constructor.
  - intros a b c _ _. unfold token_aligned, Toy.bert.
    apply Forall2_fmap_r, Forall_Forall2_diag.
    apply Forall_forall. intros row _. simpl. apply length_fmap.
  - eexists _, _, 3%nat, 0%nat. vm_compute. repeat split; repeat constructor.
Defined.

Lemma handler_raises_without_passage_tokens_witness :
  Toy.highlight (py "What?") Toy.blank_context = Raise RuntimeError.
Proof.
  apply (handler_raises_without_passage_tokens Toy.sent_tokenize Toy.tokenizer
           Toy.bert Toy.classifier Toy.hidden_size Toy.hidden_dropout_prob
           loaded_model Toy.noise (py "What?") Toy.blank_context).
  - by vm_compute.
  - vm_compute. repeat split; repeat constructor.
  - intros a b c. unfold Toy.bert. apply length_fmap.
  - intros wids seqs t w Hw Hs Ht Hts Hl. vm_compute in Hw, Hs.
    inversion Hw; subst wids. inversion Hs; subst seqs. simpl in Hts.
    do 4 (destruct t as [|t]; [lia|]). by inversion Hl.
Defined.

(** ** A payload that counts as false *)

Section ServingEdge.

Variable sent_tokenize : str → list str.
Variable tokenizer : list (list str) → list (list str) → Z → Z → BatchEncoding.
Variable bert : list (list Z) → list (list Z) → list (list Z) → list (list vec).
Variable classifier : vec → Q.
Variable hidden_size : nat.
Variable hidden_dropout_prob : Q.
Variable json_loads : str → outcome json.
Variable ill_typed : json → json → outcome (list Highlight).

(** X15. The function handler passes over a "data" entry that is present
    but counts as false (None, false, 0, an empty string, list or dict)
    and reads "body" in its place. So an empty list of documents under
    "data", with no "body", makes it raise TypeError, while the same empty
    list under "body", with no "data", is answered with an empty batch. *)
Theorem handle_falsy_data_reads_body model noise (row : list (str * json)) :
  (∀ v, dict_get row (py "data") = Some v → truthy v = false →
        handle_row sent_tokenize tokenizer bert classifier hidden_size
          hidden_dropout_prob json_loads ill_typed model noise row
        = handle_row sent_tokenize tokenizer bert classifier hidden_size
            hidden_dropout_prob json_loads ill_typed model noise
            [(py "body", default JNull (dict_get row (py "body")))])
  ∧ (dict_get row (py "data") = Some (JList []) → dict_get row (py "body") = None →
     handle_row sent_tokenize tokenizer bert classifier hidden_size
       hidden_dropout_prob json_loads ill_typed model noise row
     = Throw TypeError)
  ∧ (dict_get row (py "data") = None → dict_get row (py "body") = Some (JList []) →
     handle_row sent_tokenize tokenizer bert classifier hidden_size
       hidden_dropout_prob json_loads ill_typed model noise row
     = Done (BatchHighlights [])).
Proof.
  split_and!.
  - intros v Hd Hv. unfold handle_row. f_equal. unfold input_data_of.
    rewrite Hd. cbn [default from_option Datatypes.id]. rewrite Hv.
    assert (dict_get [(py "body", default JNull (dict_get row (py "body")))]
              (py "data") = None) as ->.
    { cbn [dict_get]. by rewrite decide_False by key_ne. }
    assert (dict_get [(py "body", default JNull (dict_get row (py "body")))]
              (py "body") = Some (default JNull (dict_get row (py "body")))) as ->.
    { cbn [dict_get]. by rewrite decide_True by done. }
    done.
  - intros Hd Hb. unfold handle_row, input_data_of. rewrite Hd, Hb. reflexivity.
  - intros Hd Hb. unfold handle_row, input_data_of. rewrite Hd, Hb. reflexivity.
Qed.

End ServingEdge.

Lemma handle_falsy_data_reads_body_witness :
  handle_row Toy.sent_tokenize Toy.tokenizer Toy.bert Toy.classifier Toy.hidden_size
    Toy.hidden_dropout_prob ToyServing.json_loads ToyServing.ill_typed
    loaded_model Toy.noise [(py "data", JList []); (py "model", JStr (py "v1"))]
  = Throw TypeError.
Proof.
  apply (proj1 (proj2 (handle_falsy_data_reads_body Toy.sent_tokenize Toy.tokenizer
                  Toy.bert Toy.classifier Toy.hidden_size Toy.hidden_dropout_prob
                  ToyServing.json_loads ToyServing.ill_typed loaded_model Toy.noise
                  [(py "data", JList []); (py "model", JStr (py "v1"))]))).
  - reflexivity.
  - reflexivity.
Defined.
